(** * The payment handler of the bridge server

    A shallow embedding of [handlers/request_handler_payment.go]:
    [RequestHandler.Payment], [createPaymentOperation] and
    [createPathPaymentOperation].

    The handler reads an HTTP form, asks three collaborators (the address
    resolver, the Horizon client and the transaction-builder library) and
    writes one response.  The collaborators are interfaces of other packages;
    they are taken as parameters.  Calls to the resolver and to Horizon are
    effects: they go through an explicit state that holds the collaborators'
    world and the log of the calls made.  Logging through logrus is left out. *)

From stdpp Require Import gmap strings list pretty.
From Stdlib Require Import NArith Lia Ascii.

(** ** Go values *)

(** A Go [error] is kept as its message, the text [Error()] returns. *)
Definition error := string.

(** A call that returns [(value, error)]. *)
Inductive result (A : Type) : Type :=
| Ok (a : A)
| Err (e : error).
Arguments Ok {A} a.
Arguments Err {A} e.

(** The values of package [horizon] the handler writes with [writeError]. *)
Inductive SubmitTransactionResponseError : Set :=
| PaymentInvalidSource
| PaymentCannotResolveDestination
| PaymentInvalidDestination
| PaymentInvalidType
| PaymentMissingParamMemo
| PaymentCannotUseMemo
| PaymentInvalidMemo
| PaymentSourceNotExist
| PaymentMalformedAssetCode
| PaymentInvalidAmount
| PaymentInvalidIssuer
| PaymentMissingParamAsset
| ServerError.

Global Instance SubmitTransactionResponseError_eq_dec :
  EqDecision SubmitTransactionResponseError.
Proof. solve_decision. Defined.

(** ** Package strconv and friends *)

Module strconv.

(** [uint64] values are numbers below [2^64]. *)
Definition maxUint64 : N := 18446744073709551615.

(** The smallest number whose product with 10 exceeds [maxUint64]. *)
Definition cutoff : N := maxUint64 / 10 + 1.

Definition digit (c : ascii) : option N :=
  let n := N_of_ascii c in
  if (48 <=? n)%N && (n <=? 57)%N then Some (n - 48)%N else None.

(** The loop of [ParseUint(s, 10, 64)] over the bytes of [s]: a byte that is
    not a decimal digit is a syntax error, a value above [maxUint64] a range
    error; both return a non-nil [err]. *)
Fixpoint parseDigits (s : string) (n : N) : option N :=
  match s with
  | EmptyString => Some n
  | String c s' =>
      match digit c with
      | None => None
      | Some d =>
          if (cutoff <=? n)%N then None
          else
            let n1 := (n * 10 + d)%N in
            if (maxUint64 <? n1)%N then None else parseDigits s' n1
      end
  end.

(** [strconv.ParseUint(s, 10, 64)]; [None] stands for a non-nil error. *)
Definition ParseUint (s : string) : option N :=
  match s with
  | EmptyString => None
  | _ => parseDigits s 0
  end.

(** The number a string of decimal digits denotes, without any bound. *)
Fixpoint digitsValue (s : string) (n : N) : option N :=
  match s with
  | EmptyString => Some n
  | String c s' =>
      match digit c with
      | None => None
      | Some d => digitsValue s' (n * 10 + d)%N
      end
  end.

End strconv.

Module hex.

(** [fromHexChar]: the value of one hexadecimal digit, in either case. *)
Definition fromHexChar (c : ascii) : option N :=
  let n := N_of_ascii c in
  if (48 <=? n)%N && (n <=? 57)%N then Some (n - 48)%N
  else if (97 <=? n)%N && (n <=? 102)%N then Some (n - 87)%N
  else if (65 <=? n)%N && (n <=? 70)%N then Some (n - 55)%N
  else None.

(** [hex.DecodeString]: two digits make a byte; an odd length or a byte that
    is no digit is an error ([None]). *)
Fixpoint DecodeString (s : string) : option (list N) :=
  match s with
  | EmptyString => Some []
  | String _ EmptyString => None
  | String a (String b s') =>
      match fromHexChar a, fromHexChar b, DecodeString s' with
      | Some x, Some y, Some l => Some ((x * 16 + y)%N :: l)
      | _, _, _ => None
      end
  end.

End hex.

Module strings.

Fixpoint HasPrefix (s prefix : string) : bool :=
  match prefix, s with
  | EmptyString, _ => true
  | String p prefix', String c s' =>
      if Ascii.eqb p c then HasPrefix s' prefix' else false
  | String _ _, EmptyString => false
  end.

(** [strings.Contains(s, substr)]. *)
Fixpoint Contains (s substr : string) : bool :=
  HasPrefix s substr ||
  match s with
  | EmptyString => false
  | String _ s' => Contains s' substr
  end.

End strings.

Module fmt.

(** [fmt.Sprintf("path[%d][<field>]", i)] for a non-negative [i]. *)
Definition Sprintf_path (field : string) (i : nat) : string :=
  "path[" +:+ pretty i +:+ "][" +:+ field +:+ "]".

End fmt.

(** ** The request *)

(** [http.Request], as far as the handler reads it: [r.PostForm], of type
    [url.Values], a map from a field name to the values submitted for it. *)
Record Request : Type := { PostForm : gmap string (list string) }.

(** [r.PostFormValue(key)]: the first value of the field, [""] without one. *)
Definition PostFormValue (r : Request) (key : string) : string :=
  match PostForm r !! key with
  | Some (v :: _) => v
  | _ => ""
  end.

(** [StellarDestination], the resolver's answer. [MemoType] and [Memo] are
    [*string] in the source: [None] is the nil pointer. *)
Record StellarDestination : Type := {
  AccountId : string;
  MemoType : option string;
  Memo : option string
}.

(** [horizon.AccountResponse], as far as the handler reads it. *)
Record AccountResponse : Type := { SequenceNumber : string }.

(** ** Package build (imported as [b]) *)

Module b.

(** [b.Asset]: [b.Asset{Native: true}] leaves [Code] and [Issuer] empty,
    [b.Asset{Code: c, Issuer: i}] leaves [Native] false. *)
Record Asset : Type := { Code : string; Issuer : string; Native : bool }.

(** The mutators the handler hands to an operation builder. *)
Inductive OperationMutator : Type :=
| Destination (AddressOrSeed : string)
| NativeAmount (Amount : string)
| CreditAmount (Code Issuer Amount : string)
| PathSend (Asset : Asset) (MaxAmount : string)
| PathDestination (Asset : Asset) (Amount : string)
| Path (Assets : list Asset).

(** An operation builder is known by the constructor that made it, the
    mutators it was given, and its [Err] field. *)
Inductive OperationBuilder : Type :=
| PaymentBuilder (muts : list OperationMutator) (Err : option error)
| CreateAccountBuilder (muts : list OperationMutator) (Err : option error)
| PathPaymentBuilder (muts : list OperationMutator) (Err : option error).

Inductive MemoMutator : Type :=
| MemoID (Value : N)
| MemoText (Value : string)
| MemoHash (Value : list N).

Inductive TransactionMutator : Type :=
| SourceAccount (AddressOrSeed : string)
| Sequence (Sequence : N)
| Network (Passphrase : string)
| Operation (o : OperationBuilder)
| Memo (m : MemoMutator).

(** What the library decides: the error, if any, each builder ends with, and
    the signed envelope in base 64 ([tx.Sign(seed).Base64()]). *)
Class Library : Type := {
  PaymentErr : list OperationMutator → option error;
  CreateAccountErr : list OperationMutator → option error;
  PathPaymentErr : list OperationMutator → option error;
  TransactionErr : list TransactionMutator → option error;
  SignBase64 : list TransactionMutator → string → result string
}.

Definition Payment `{Library} (muts : list OperationMutator) : OperationBuilder :=
  PaymentBuilder muts (PaymentErr muts).
Definition CreateAccount `{Library} (muts : list OperationMutator) : OperationBuilder :=
  CreateAccountBuilder muts (CreateAccountErr muts).
Definition PathPayment `{Library} (muts : list OperationMutator) : OperationBuilder :=
  PathPaymentBuilder muts (PathPaymentErr muts).

(** The [Err] field of a builder. *)
Definition Err (o : OperationBuilder) : option error :=
  match o with
  | PaymentBuilder _ e | CreateAccountBuilder _ e | PathPaymentBuilder _ e => e
  end.

End b.

(** ** Package keypair *)

Module keypair.

(** [keypair.Parse] and the [Address()] of the key pair it returns. *)
Class Library : Type := {
  KP : Type;
  Parse : string → result KP;
  Address : KP → string
}.

End keypair.

(** ** The collaborators and the handler's state *)

(** The calls the handler makes on its collaborators, as logged. *)
Inductive Call : Type :=
| CallResolve (address : string)
| CallLoadAccount (accountID : string)
| CallSubmitTransaction (txeBase64 : string).

Section Handler.

(** [W] is whatever the collaborators' answers depend on; a call may change
    it, so two calls with one argument need not agree. *)
Context {W SubmitResponse : Type}.

(** [AddressResolverInterface]. *)
Record AddressResolverInterface : Type := {
  Resolve : string → W → result StellarDestination * W
}.

(** [HorizonInterface]. *)
Record HorizonInterface : Type := {
  LoadAccount : string → W → result AccountResponse * W;
  SubmitTransaction : string → W → result SubmitResponse * W
}.

Record Config : Type := { NetworkPassphrase : string }.

Record RequestHandler : Type := {
  config : Config;
  Horizon : HorizonInterface;
  AddressResolver : AddressResolverInterface
}.

Record State : Type := { world : W; calls : list Call }.

(** How the handler ends before its last statement: an error written with
    [writeError] and a [return], or a run-time panic (net/http recovers it;
    the handler has written nothing). *)
Inductive Exit : Type :=
| WroteError (e : SubmitTransactionResponseError)
| Panicked.

(** A step of the handler goes on with a value or stops. *)
Inductive Step (A : Type) : Type :=
| Continue (a : A)
| Stop (x : Exit).

Definition Handler (A : Type) : Type := State → Step A * State.

Definition ret {A} (a : A) : Handler A := λ st, (Continue _ a, st).

Definition bind {A B} (m : Handler A) (k : A → Handler B) : Handler B :=
  λ st, match m st with
        | (Continue _ a, st') => k a st'
        | (Stop _ x, st') => (Stop _ x, st')
        end.

(** [writeError(w, e); return]. *)
Definition writeError {A} (e : SubmitTransactionResponseError) : Handler A :=
  λ st, (Stop _ (WroteError e), st).

Definition panic {A} : Handler A := λ st, (Stop _ Panicked, st).

(** A collaborator's call: its answer, the world after it, and the log. *)
Definition call {A} (c : Call) (f : W → result A * W) : Handler (result A) :=
  λ st, let '(res, w) := f (world st) in
        (Continue _ res, {| world := w; calls := calls st ++ [c] |}).

End Handler.

Arguments AddressResolverInterface : clear implicits.
Arguments HorizonInterface : clear implicits.
Arguments RequestHandler : clear implicits.
Arguments State : clear implicits.
Arguments Handler : clear implicits.
Arguments Continue {A} a.
Arguments Stop {A} x.

Notation "x <- m ; k" := (bind m (λ x, k))
  (at level 20, m at level 100, k at level 200, only parsing).
Notation "' p <- m ; k" := (bind m (λ x, match x with p => k end))
  (at level 20, p pattern, m at level 100, k at level 200, only parsing).

(** [uint64] addition wraps around. *)
Definition uint64_add (x y : N) : N := ((x + y) mod 2 ^ 64)%N.

(** ** The handler *)

Section Payment.

Context {build : b.Library} {keys : keypair.Library} {W SubmitResponse : Type}.
Variable rh : RequestHandler W SubmitResponse.

Abbreviation Handler := (Handler W).

(** [createPaymentOperation] returns its two named results,
    [(operationBuilder, errorResponse)]; [None] is nil. *)
Definition createPaymentOperation (r : Request) (destinationObject : StellarDestination)
  : Handler (option b.OperationBuilder * option SubmitTransactionResponseError) :=
  let amount := PostFormValue r "amount" in
  let assetCode := PostFormValue r "asset_code" in
  let assetIssuer := PostFormValue r "asset_issuer" in
  if bool_decide (assetCode ≠ "") && bool_decide (assetIssuer ≠ "") then
    match keypair.Parse assetIssuer with
    | Err _ => ret (None, Some PaymentInvalidIssuer)
    | Ok issuerKeypair =>
        let operationBuilder :=
          b.Payment [b.Destination (AccountId destinationObject);
                     b.CreditAmount assetCode (keypair.Address issuerKeypair) amount] in
        match b.Err operationBuilder with
        | Some _ => ret (Some operationBuilder, Some ServerError)
        | None => ret (Some operationBuilder, None)
        end
    end
  else if bool_decide (assetCode = "") && bool_decide (assetIssuer = "") then
    let mutators := [b.Destination (AccountId destinationObject);
                     b.NativeAmount amount] in
    (* Check if destination account exist *)
    res <- call (CallLoadAccount (AccountId destinationObject))
                (LoadAccount (Horizon rh) (AccountId destinationObject)) ;
    match res with
    | Err _ =>
        let operationBuilder := b.CreateAccount mutators in
        match b.Err operationBuilder with
        | Some _ => ret (Some operationBuilder, Some ServerError)
        | None => ret (Some operationBuilder, None)
        end
    | Ok _ =>
        let operationBuilder := b.Payment mutators in
        match b.Err operationBuilder with
        | Some _ => ret (Some operationBuilder, Some ServerError)
        | None => ret (Some operationBuilder, None)
        end
    end
  else ret (None, Some PaymentMissingParamAsset).

(** The asset of path leg [i], from the two fields of that index. *)
Definition pathLeg (r : Request) (i : nat) : b.Asset :=
  let code := PostFormValue r (fmt.Sprintf_path "asset_code" i) in
  let issuer := PostFormValue r (fmt.Sprintf_path "asset_issuer" i) in
  if bool_decide (code = "") && bool_decide (issuer = "")
  then {| b.Code := ""; b.Issuer := ""; b.Native := true |}
  else {| b.Code := code; b.Issuer := issuer; b.Native := false |}.

(** [for i := 0; ; i++ { ... }], from index [i] with the legs found so far.
    The loop ends at the first index whose code field is not in the form;
    [fuel] bounds the iterations, and [pathLoop_fuel] shows that the fuel
    [discoverPath] gives is never used up.  The index, a Go [int], is a
    [nat] here: it never exceeds the number of fields of the form. *)
Fixpoint pathLoop (fuel : nat) (r : Request) (i : nat) (path : list b.Asset)
  : list b.Asset :=
  match fuel with
  | O => path
  | S fuel' =>
      (* If the element does not exist in PostForm break the loop *)
      match PostForm r !! fmt.Sprintf_path "asset_code" i with
      | None => path
      | Some _ => pathLoop fuel' r (S i) (path ++ [pathLeg r i])
      end
  end.

Definition discoverPath (r : Request) : list b.Asset :=
  pathLoop (S (size (PostForm r))) r 0 [].

Definition createPathPaymentOperation (r : Request) (destinationObject : StellarDestination)
  : Handler (option b.OperationBuilder * option SubmitTransactionResponseError) :=
  let sendMax := PostFormValue r "send_max" in
  let sendAssetCode := PostFormValue r "send_asset_code" in
  let sendAssetIssuer := PostFormValue r "send_asset_issuer" in
  let sendAsset :=
    if bool_decide (sendAssetCode ≠ "") && bool_decide (sendAssetIssuer ≠ "")
    then Some {| b.Code := sendAssetCode; b.Issuer := sendAssetIssuer; b.Native := false |}
    else if bool_decide (sendAssetCode = "") && bool_decide (sendAssetIssuer = "")
    then Some {| b.Code := ""; b.Issuer := ""; b.Native := true |}
    else None in
  match sendAsset with
  | None => ret (None, Some PaymentMissingParamAsset)
  | Some sendAsset =>
      let destinationAmount := PostFormValue r "destination_amount" in
      let destinationAssetCode := PostFormValue r "destination_asset_code" in
      let destinationAssetIssuer := PostFormValue r "destination_asset_issuer" in
      let destinationAsset :=
        if bool_decide (destinationAssetCode ≠ "")
           && bool_decide (destinationAssetIssuer ≠ "")
        then Some {| b.Code := destinationAssetCode;
                     b.Issuer := destinationAssetIssuer; b.Native := false |}
        else if bool_decide (destinationAssetCode = "")
                && bool_decide (destinationAssetIssuer = "")
        then Some {| b.Code := ""; b.Issuer := ""; b.Native := true |}
        else None in
      match destinationAsset with
      | None => ret (None, Some PaymentMissingParamAsset)
      | Some destinationAsset =>
          (* TODO check the fields *)
          let path := discoverPath r in
          let operationBuilder :=
            b.PathPayment [b.Destination (AccountId destinationObject);
                           b.PathSend sendAsset sendMax;
                           b.PathDestination destinationAsset destinationAmount;
                           b.Path path] in
          match b.Err operationBuilder with
          | Some _ => ret (Some operationBuilder, Some ServerError)
          | None => ret (Some operationBuilder, None)
          end
      end
  end.

(** *** [Payment], block by block

    The body of [Payment] is a chain of blocks, each ending the handler or
    handing values to the next.  Each block below is one stretch of the
    function; [Payment] chains them in the order of the source. *)

(** The source key, the resolved destination and its account id. *)
Definition resolveDestination (r : Request)
  : Handler (string * keypair.KP * StellarDestination) :=
  let source := PostFormValue r "source" in
  match keypair.Parse source with
  | Err _ => writeError PaymentInvalidSource
  | Ok sourceKeypair =>
      let destination := PostFormValue r "destination" in
      res <- call (CallResolve destination)
                  (Resolve (AddressResolver rh) destination) ;
      match res with
      | Err _ => writeError PaymentCannotResolveDestination
      | Ok destinationObject =>
          match keypair.Parse (AccountId destinationObject) with
          | Err _ => writeError PaymentInvalidDestination
          | Ok _ => ret (source, sourceKeypair, destinationObject)
          end
      end
  end.

(** [switch paymentType] and the check of [errorResponse] after it.
    [operationBuilder] stays nil ([None]) for the empty type. *)
Definition chooseOperation (r : Request) (destinationObject : StellarDestination)
  : Handler (option b.OperationBuilder) :=
  let paymentType := PostFormValue r "type" in
  '(operationBuilder, errorResponse) <-
    (if bool_decide (paymentType = "") then ret (None, None)
     else if bool_decide (paymentType = "payment")
     then createPaymentOperation r destinationObject
     else if bool_decide (paymentType = "path_payment")
     then createPathPaymentOperation r destinationObject
     else writeError PaymentInvalidType) ;
  match errorResponse with
  | Some e => writeError e
  | None => ret operationBuilder
  end.

(** [memo_type] and [memo] are given together or not at all. *)
Definition memoParams (r : Request) : Handler (string * string) :=
  let memoType := PostFormValue r "memo_type" in
  let memo := PostFormValue r "memo" in
  if negb ((bool_decide (memoType = "") && bool_decide (memo = ""))
           || (bool_decide (memoType ≠ "") && bool_decide (memo ≠ "")))
  then writeError PaymentMissingParamMemo
  else ret (memoType, memo).

(** The resolver's memo replaces the request's.  [*destinationObject.Memo]
    of a nil pointer is a run-time panic. *)
Definition memoOverride (destinationObject : StellarDestination)
    (memoType memo : string) : Handler (string * string) :=
  match MemoType destinationObject with
  | Some destinationMemoType =>
      if bool_decide (memoType ≠ "") then writeError PaymentCannotUseMemo
      else
        match Memo destinationObject with
        | Some destinationMemo => ret (destinationMemoType, destinationMemo)
        | None => panic
        end
  | None => ret (memoType, memo)
  end.

(** [switch] on [memoType]: the memo mutator, nil ([None]) without a memo. *)
Definition memoDispatch (memoType memo : string) : Handler (option b.MemoMutator) :=
  if bool_decide (memoType = "") then ret None
  else if bool_decide (memoType = "id") then
    match strconv.ParseUint memo with
    | None => writeError PaymentInvalidMemo
    | Some id => ret (Some (b.MemoID id))
    end
  else if bool_decide (memoType = "text") then ret (Some (b.MemoText memo))
  else if bool_decide (memoType = "hash") then
    match hex.DecodeString memo with
    | None => writeError PaymentInvalidMemo
    | Some memoBytes =>
        if bool_decide (length memoBytes ≠ 32) then writeError PaymentInvalidMemo
        else ret (Some (b.MemoHash (take 32 memoBytes)))
    end
  else writeError PaymentInvalidMemo.

(** The source account's sequence number. *)
Definition loadSequence (sourceKeypair : keypair.KP) : Handler N :=
  res <- call (CallLoadAccount (keypair.Address sourceKeypair))
              (LoadAccount (Horizon rh) (keypair.Address sourceKeypair)) ;
  match res with
  | Err _ => writeError PaymentSourceNotExist
  | Ok accountResponse =>
      match strconv.ParseUint (SequenceNumber accountResponse) with
      | None => writeError ServerError
      | Some sequenceNumber => ret sequenceNumber
      end
  end.

(** The mutators of the transaction.  [operationBuilder.(b.TransactionMutator)]
    is a type assertion on an interface value: on nil it panics.  The memo's
    assertion is behind [if memoMutator != nil]. *)
Definition composeMutators (source : string) (sequenceNumber : N)
    (operationBuilder : option b.OperationBuilder)
    (memoMutator : option b.MemoMutator) : Handler (list b.TransactionMutator) :=
  match operationBuilder with
  | None => panic
  | Some operation =>
      let transactionMutators :=
        [b.SourceAccount source;
         b.Sequence (uint64_add sequenceNumber 1);
         b.Network (NetworkPassphrase (config rh));
         b.Operation operation] in
      match memoMutator with
      | Some memo => ret (transactionMutators ++ [b.Memo memo])
      | None => ret transactionMutators
      end
  end.

(** [switch] on [tx.Err.Error()]: the error written for a builder's error. *)
Definition builderErrorResponse (text : string) : SubmitTransactionResponseError :=
  if bool_decide (text = "Asset code length is invalid") then PaymentMalformedAssetCode
  else if strings.Contains text "cannot parse amount" then PaymentInvalidAmount
  else ServerError.

(** Build, sign, encode and submit the transaction. *)
Definition submit (source : string) (transactionMutators : list b.TransactionMutator)
  : Handler SubmitResponse :=
  match b.TransactionErr transactionMutators with
  | Some text => writeError (builderErrorResponse text)
  | None =>
      match b.SignBase64 transactionMutators source with
      | Err _ => writeError ServerError
      | Ok txeB64 =>
          res <- call (CallSubmitTransaction txeB64)
                      (SubmitTransaction (Horizon rh) txeB64) ;
          match res with
          | Err _ => writeError ServerError
          | Ok submitResponse => ret submitResponse
          end
      end
  end.

(** [Payment]: [Continue submitResponse] is the handler reaching its last
    statement, [write(w, submitResponse)]. *)
Definition Payment (r : Request) : Handler SubmitResponse :=
  '(source, sourceKeypair, destinationObject) <- resolveDestination r ;
  operationBuilder <- chooseOperation r destinationObject ;
  '(memoType, memo) <- memoParams r ;
  '(memoType, memo) <- memoOverride destinationObject memoType memo ;
  memoMutator <- memoDispatch memoType memo ;
  sequenceNumber <- loadSequence sourceKeypair ;
  transactionMutators <-
    composeMutators source sequenceNumber operationBuilder memoMutator ;
  submit source transactionMutators.

End Payment.

(** ** Stand-ins for the collaborators

    Small, total collaborators, as a test of the handler would set them up:
    they serve to run the handler on concrete requests. *)

Module Mock.

(** A key is valid when it starts with [G]; its address is itself. *)
Definition keys : keypair.Library := {|
  keypair.KP := string;
  keypair.Parse s := if strings.HasPrefix s "G" then Ok s else Err "invalid key";
  keypair.Address kp := kp
|}.

(** A builder library that accepts everything; [failing text] reports
    [text] as the transaction builder's error. *)
Definition builder : b.Library := {|
  b.PaymentErr _ := None;
  b.CreateAccountErr _ := None;
  b.PathPaymentErr _ := None;
  b.TransactionErr _ := None;
  b.SignBase64 _ _ := Ok "envelope"
|}.

Definition failing (text : error) : b.Library := {|
  b.PaymentErr _ := None;
  b.CreateAccountErr _ := None;
  b.PathPaymentErr _ := None;
  b.TransactionErr _ := Some text;
  b.SignBase64 _ _ := Ok "envelope"
|}.

(** Horizon knows the accounts of a table, each with its sequence number. *)
Definition horizon (accounts : list (string * string)) : HorizonInterface unit string := {|
  LoadAccount id w :=
    (match list_find (λ a, bool_decide (a.1 = id)) accounts with
     | Some (_, (_, sequence)) => Ok {| SequenceNumber := sequence |}
     | None => Err "not found"
     end, w);
  SubmitTransaction txe w := (Ok "submitted", w)
|}.

(** The resolver answers with the address itself and the given memo. *)
Definition resolver (memoType memo : option string) : AddressResolverInterface unit := {|
  Resolve address w :=
    (Ok {| AccountId := address; MemoType := memoType; Memo := memo |}, w)
|}.

Definition handler (accounts : list (string * string)) (memoType memo : option string)
  : RequestHandler unit string := {|
  config := {| NetworkPassphrase := "Test SDF Network ; September 2015" |};
  Horizon := horizon accounts;
  AddressResolver := resolver memoType memo
|}.

(** A request from its form fields, one value each. *)
Definition request (fields : list (string * string)) : Request :=
  {| PostForm := list_to_map ((λ f, (f.1, [f.2])) <$> fields) |}.

Definition start : State unit := {| world := (); calls := [] |}.

(** Horizon with the accounts [GA] and [GB]; the resolver gives no memo. *)
Definition rhAB : RequestHandler unit string :=
  handler [("GA", "7"); ("GB", "1")] None None.

(** The same, the resolver giving the memo [id 42]. *)
Definition rhMemo : RequestHandler unit string :=
  handler [("GA", "7"); ("GB", "1")] (Some "id") (Some "42").

(** The source account's sequence number is the largest [uint64]. *)
Definition rhMax : RequestHandler unit string :=
  handler [("GA", "18446744073709551615"); ("GB", "1")] None None.

Definition destGB : StellarDestination :=
  {| AccountId := "GB"; MemoType := None; Memo := None |}.
Definition destGC : StellarDestination :=
  {| AccountId := "GC"; MemoType := None; Memo := None |}.

(** Ten units of the native asset from [GA] to [GB]. *)
Definition nativePayment : Request :=
  request [("source", "GA"); ("destination", "GB"); ("type", "payment");
           ("amount", "10")].

(** Ten [USD] of the issuer [GD] from [GA] to [GB]. *)
Definition issuedPayment : Request :=
  request [("source", "GA"); ("destination", "GB"); ("type", "payment");
           ("amount", "10"); ("asset_code", "USD"); ("asset_issuer", "GD")].

(** A request without a type. *)
Definition untyped : Request :=
  request [("source", "GA"); ("destination", "GB")].

(** A payment with a memo of its own. *)
Definition withMemo (memoType memo : string) : Request :=
  request [("source", "GA"); ("destination", "GB"); ("type", "payment");
           ("amount", "10"); ("memo_type", memoType); ("memo", memo)].

(** A path payment whose only leg has a code and no issuer. *)
Definition partialLeg : Request :=
  request [("source", "GA"); ("destination", "GB"); ("type", "path_payment");
           ("path[0][asset_code]", "USD")].

(** A builder library whose payment builder ends with the error [text]. *)
Definition rejecting (text : error) : b.Library := {|
  b.PaymentErr _ := Some text;
  b.CreateAccountErr _ := None;
  b.PathPaymentErr _ := None;
  b.TransactionErr _ := None;
  b.SignBase64 _ _ := Ok "envelope"
|}.

(** A builder library whose envelope tells the memo of the transaction,
    the last of its mutators. *)
Definition envelopeOf (muts : list b.TransactionMutator) : string :=
  match last muts with
  | Some (b.Memo (b.MemoID n)) => "memo id " +:+ pretty n
  | Some (b.Memo (b.MemoText text)) => "memo text " +:+ text
  | Some (b.Memo (b.MemoHash _)) => "memo hash"
  | _ => "no memo"
  end.

Definition signing : b.Library := {|
  b.PaymentErr _ := None;
  b.CreateAccountErr _ := None;
  b.PathPaymentErr _ := None;
  b.TransactionErr _ := None;
  b.SignBase64 muts _ := Ok (envelopeOf muts)
|}.

(** A resolver that knows no address. *)
Definition rhUnresolved : RequestHandler unit string := {|
  config := {| NetworkPassphrase := "Test SDF Network ; September 2015" |};
  Horizon := horizon [("GA", "7"); ("GB", "1")];
  AddressResolver := {| Resolve address w := (Err "no such address", w) |}
|}.

(** A payment from a source that is no key. *)
Definition badSource : Request :=
  request [("source", "XA"); ("destination", "GB"); ("type", "payment");
           ("amount", "10")].

(** A payment with an asset code and no issuer. *)
Definition partialAsset : Request :=
  request [("source", "GA"); ("destination", "GB"); ("type", "payment");
           ("amount", "10"); ("asset_code", "USD")].

(** A payment whose issuer is no key. *)
Definition badIssuer : Request :=
  request [("source", "GA"); ("destination", "GB"); ("type", "payment");
           ("amount", "10"); ("asset_code", "USD"); ("asset_issuer", "XD")].

(** A payment with a memo type and no memo. *)
Definition memoTypeOnly : Request :=
  request [("source", "GA"); ("destination", "GB"); ("type", "payment");
           ("amount", "10"); ("memo_type", "text")].

(** The path payment with the legs 0 and 1 only. *)
Definition twoLegs : Request :=
  request [("source", "GA"); ("destination", "GB"); ("type", "path_payment");
           ("path[0][asset_code]", "EUR"); ("path[0][asset_issuer]", "GE");
           ("path[1][asset_code]", ""); ("path[1][asset_issuer]", "")].

(** Sixty-four hexadecimal digits, in both cases. *)
Definition hash64 : string :=
  "00112233445566778899aabbccddeeffAABBCCDDEEFF00112233445566778899".

(** A path payment with the legs 0, 1 and 3: leg 2 is missing. *)
Definition gappedPath : Request :=
  request [("source", "GA"); ("destination", "GB"); ("type", "path_payment");
           ("path[0][asset_code]", "EUR"); ("path[0][asset_issuer]", "GE");
           ("path[1][asset_code]", ""); ("path[1][asset_issuer]", "");
           ("path[3][asset_code]", "USD"); ("path[3][asset_issuer]", "GD")].

End Mock.

(** ** Notions the properties are stated with *)

(** The invariant of a resolved destination: the memo type is present
    exactly when the memo value is. *)
Definition memoInvariant (d : StellarDestination) : Prop :=
  is_Some (MemoType d) ↔ is_Some (Memo d).

(** [s] is the decimal text of the unsigned 64-bit number [n]: one digit at
    least, digits only, and a value of at most [maxUint64]. *)
Definition isUint64 (s : string) (n : N) : Prop :=
  s ≠ "" ∧ strconv.digitsValue s 0 = Some n ∧ (n ≤ strconv.maxUint64)%N.

(** The [errorResponse] an operation builder is returned with:
    [horizon.ServerError] when its [Err] is not nil. *)
Definition builderError (o : b.OperationBuilder)
  : option SubmitTransactionResponseError :=
  match b.Err o with
  | Some _ => Some ServerError
  | None => None
  end.

(** A pair of an asset code and an asset issuer given in part: one of the
    two is empty and the other is not. *)
Definition partialPair (code issuer : string) : Prop :=
  (code = "" ∧ issuer ≠ "") ∨ (code ≠ "" ∧ issuer = "").

Global Instance partialPair_dec code issuer : Decision (partialPair code issuer).
Proof. unfold partialPair. apply _. Defined.

(** The asset of a pair given whole or not at all: the issued asset of a
    code and an issuer, the native asset without them. *)
Definition wholeAsset (code issuer : string) : b.Asset :=
  if bool_decide (code ≠ "")
  then {| b.Code := code; b.Issuer := issuer; b.Native := false |}
  else {| b.Code := ""; b.Issuer := ""; b.Native := true |}.

(** The form has the code field of leg [i]. *)
Definition hasLeg (r : Request) (i : nat) : Prop :=
  is_Some (PostForm r !! fmt.Sprintf_path "asset_code" i).

(** The lookup of the destination account that choosing the operation
    makes: one call for a payment with neither asset code nor asset issuer,
    none for any other request. *)
Definition destinationLookup (r : Request) (dest : StellarDestination) : list Call :=
  if bool_decide (PostFormValue r "type" = "payment"
                  ∧ PostFormValue r "asset_code" = ""
                  ∧ PostFormValue r "asset_issuer" = "")
  then [CallLoadAccount (AccountId dest)]
  else [].

(** Every character of [s] is a hexadecimal digit. *)
Fixpoint allHex (s : string) : bool :=
  match s with
  | EmptyString => true
  | String c s' => bool_decide (is_Some (hex.fromHexChar c)) && allHex s'
  end.

(** [sub] occurs in [s]. *)
Definition isSubstring (sub s : string) : Prop :=
  ∃ pre post, s = pre +:+ sub +:+ post.

Section Reach.

Context {build : b.Library} {keys : keypair.Library} {W SubmitResponse : Type}.
Variable rh : RequestHandler W SubmitResponse.

(** What is left of [Payment] once the memo parameters are read. *)
Definition afterMemoParams (source : string) (sourceKeypair : keypair.KP)
    (destinationObject : StellarDestination)
    (operationBuilder : option b.OperationBuilder) (memoType memo : string)
  : Handler W SubmitResponse :=
  '(memoType, memo) <- memoOverride destinationObject memoType memo ;
  memoMutator <- memoDispatch memoType memo ;
  sequenceNumber <- loadSequence rh sourceKeypair ;
  transactionMutators <-
    composeMutators rh source sequenceNumber operationBuilder memoMutator ;
  submit rh source transactionMutators.

(** What is left of [Payment] once the memo mutator is made. *)
Definition assembly (source : string) (sourceKeypair : keypair.KP)
    (operationBuilder : option b.OperationBuilder)
    (memoMutator : option b.MemoMutator) : Handler W SubmitResponse :=
  sequenceNumber <- loadSequence rh sourceKeypair ;
  transactionMutators <-
    composeMutators rh source sequenceNumber operationBuilder memoMutator ;
  submit rh source transactionMutators.

(** The request, handled from state [st], gets as far as loading the source
    account: every block before it goes on, with these values and in state
    [st2]. *)
Definition reachesAssembly (r : Request) (st : State W) (source : string)
    (sourceKeypair : keypair.KP) (operationBuilder : option b.OperationBuilder)
    (memoMutator : option b.MemoMutator) (st2 : State W) : Prop :=
  ∃ dest st1 userType userMemo memoType memo,
    resolveDestination rh r st = (Continue (source, sourceKeypair, dest), st1)
    ∧ chooseOperation rh r dest st1 = (Continue operationBuilder, st2)
    ∧ memoParams r st2 = (Continue (userType, userMemo), st2)
    ∧ memoOverride dest userType userMemo st2 = (Continue (memoType, memo), st2)
    ∧ memoDispatch memoType memo st2 = (Continue memoMutator, st2).

End Reach.

(** * Properties *)

(** ** Parsing numbers and hexadecimal strings *)

Lemma append_cons c (s t : string) : String c s +:+ t = String c (s +:+ t).
Proof. reflexivity. Qed.

Lemma append_assoc (s t u : string) : (s +:+ t) +:+ u = s +:+ (t +:+ u).
Proof. induction s as [|c s IH]; [done|]. by rewrite !append_cons, IH. Qed.

Lemma append_length (s t : string) :
  String.length (s +:+ t) = String.length s + String.length t.
Proof. induction s as [|c s IH]; [done|]. rewrite append_cons. simpl. by rewrite IH. Qed.

(** [+:+] cancels on the right as well. *)
Lemma append_inj_l (s1 s2 t : string) : s1 +:+ t = s2 +:+ t → s1 = s2.
Proof.
  intros Heq. assert (String.length s1 = String.length s2) as Hlen.
  { apply (f_equal String.length) in Heq. rewrite !append_length in Heq. lia. }
  revert s2 Heq Hlen. induction s1 as [|c s1 IH]; intros [|c2 s2]; try done.
  rewrite !append_cons. intros [= -> Heq] [= Hlen]. f_equal. by apply IH.
Qed.

Section Strconv.
Import strconv.
Local Open Scope N_scope.

Lemma digit_lt c d : digit c = Some d → d < 10.
Proof.
  unfold digit. intros Hd.
  destruct (48 <=? N_of_ascii c) eqn:H1; [|done].
  destruct (N_of_ascii c <=? 57) eqn:H2; [|done].
  simpl in Hd. injection Hd as <-.
  apply N.leb_le in H1, H2. lia.
Qed.

Lemma digit_pretty_N_char d : d < 10 → digit (pretty_N_char d) = Some d.
Proof.
  intros Hd.
  assert (Hcases : d = 0 ∨ d = 1 ∨ d = 2 ∨ d = 3 ∨ d = 4 ∨ d = 5 ∨ d = 6
                   ∨ d = 7 ∨ d = 8 ∨ d = 9) by lia.
  destruct Hcases as [->|[->|[->|[->|[->|[->|[->|[->|[->| ->]]]]]]]]]; reflexivity.
Qed.

Lemma digitsValue_ge s : ∀ n m, digitsValue s n = Some m → n ≤ m.
Proof.
  induction s as [|c s IH]; intros n m; simpl.
  - intros [= ->]. lia.
  - destruct (digit c) as [d|]; [|done].
    intros Hm. apply IH in Hm. lia.
Qed.

Lemma digitsValue_app s t : ∀ n,
  digitsValue (s +:+ t) n = digitsValue s n ≫= digitsValue t.
Proof.
  induction s as [|c s IH]; intros n; [done|].
  rewrite append_cons. simpl. destruct (digit c); [apply IH|done].
Qed.

(** [parseDigits] is the digits' value, refused above [maxUint64]. *)
Lemma parseDigits_spec s : ∀ n m, n ≤ maxUint64 →
  parseDigits s n = Some m ↔ digitsValue s n = Some m ∧ m ≤ maxUint64.
Proof.
  induction s as [|c s IH]; intros n m Hn; simpl.
  - split; [intros [= ->]; done|intros [[= ->] _]; done].
  - destruct (digit c) as [d|] eqn:Hd; [|by split; [|intros []]].
    pose proof (digit_lt _ _ Hd) as Hd10.
    destruct (cutoff <=? n) eqn:Hcut.
    { apply N.leb_le in Hcut. split; [done|]. intros [Hv Hm].
      apply digitsValue_ge in Hv.
      assert (cutoff = 1844674407370955162) as Hc by (by vm_compute).
      unfold maxUint64 in *. lia. }
    apply N.leb_gt in Hcut. cbv zeta.
    destruct (maxUint64 <? n * 10 + d) eqn:Hmax.
    { apply N.ltb_lt in Hmax. split; [done|]. intros [Hv Hm].
      apply digitsValue_ge in Hv. lia. }
    apply N.ltb_ge in Hmax. by apply IH.
Qed.

Lemma ParseUint_spec s m : ParseUint s = Some m ↔ isUint64 s m.
Proof.
  unfold ParseUint. destruct s as [|c s]; [by split; [|intros []]|].
  rewrite parseDigits_spec by (unfold maxUint64; lia). by split; [|intros []].
Qed.

Lemma pretty_N_go_app x : ∀ s, pretty_N_go x s = pretty_N_go x "" +:+ s.
Proof.
  induction (N.lt_wf_0 x) as [x _ IH]; intros s.
  destruct (decide (x = 0)) as [->|Hx].
  { by rewrite !pretty_N_go_0. }
  rewrite (pretty_N_go_step x s), (pretty_N_go_step x "") by lia.
  assert (Hlt : x `div` 10 < x) by (apply N.div_lt; lia).
  rewrite (IH _ Hlt (String _ s)), (IH _ Hlt (String _ "")).
  by rewrite append_assoc.
Qed.

Lemma digitsValue_pretty_N_go x : digitsValue (pretty_N_go x "") 0 = Some x.
Proof.
  induction (N.lt_wf_0 x) as [x _ IH].
  destruct (decide (x = 0)) as [->|Hx].
  { by rewrite pretty_N_go_0. }
  rewrite pretty_N_go_step, pretty_N_go_app by lia.
  rewrite digitsValue_app, IH by (apply N.div_lt; lia). simpl.
  rewrite digit_pretty_N_char by (apply N.mod_lt; lia).
  f_equal. pose proof (N.div_mod x 10). lia.
Qed.

Lemma pretty_N_nonempty (x : N) : pretty x ≠ "".
Proof.
  unfold pretty, pretty_N. case_decide; [done|].
  rewrite pretty_N_go_step by lia. rewrite pretty_N_go_app.
  destruct (pretty_N_go (x `div` 10) ""); done.
Qed.

(** Every [uint64] is parsed back from its decimal text. *)
Lemma ParseUint_pretty (x : N) : x ≤ maxUint64 → ParseUint (pretty x) = Some x.
Proof.
  intros Hx. apply ParseUint_spec. split; [apply pretty_N_nonempty|].
  split; [|done]. unfold pretty, pretty_N. case_decide as H0; [by subst|].
  apply digitsValue_pretty_N_go.
Qed.

End Strconv.

Section Hex.
Import hex.

Lemma DecodeString_length_le n : ∀ s l,
  String.length s ≤ n → DecodeString s = Some l → String.length s = 2 * length l.
Proof.
  induction n as [n IH] using lt_wf_ind. intros [|a [|c s]] l Hn; simpl.
  - by intros [= <-].
  - done.
  - destruct (fromHexChar a), (fromHexChar c); try done.
    destruct (DecodeString s) as [l'|] eqn:Hs; [|done].
    intros [= <-]. simpl in *.
    rewrite (IH (String.length s)) with (l := l'); [lia|lia|done|done].
Qed.

(** A decoded string has two characters for each byte. *)
Lemma DecodeString_length s l :
  DecodeString s = Some l → String.length s = 2 * length l.
Proof. by apply DecodeString_length_le with (n := String.length s). Qed.

End Hex.

(** ** Path legs *)

Section PathDiscovery.

Lemma Sprintf_path_inj field : Inj (=) (=) (fmt.Sprintf_path field).
Proof.
  intros i j Heq. unfold fmt.Sprintf_path in Heq.
  apply (inj (String.app "path[")) in Heq.
  apply append_inj_l in Heq. by apply (inj pretty) in Heq.
Qed.

(** A form that has the fields of [n] indices has at least [n] fields. *)
Lemma fields_le_size field (m : gmap string (list string)) : ∀ n,
  (∀ j, j < n → is_Some (m !! fmt.Sprintf_path field j)) → n ≤ size m.
Proof.
  intros n. revert m. induction n as [|n IH]; intros m Hall; [lia|].
  assert (is_Some (m !! fmt.Sprintf_path field n)) as Hn by (apply Hall; lia).
  pose proof (map_size_ne_0_lookup_2 m _ Hn) as Hsize.
  specialize (IH (delete (fmt.Sprintf_path field n) m)).
  rewrite map_size_delete_Some in IH by done.
  enough (n ≤ pred (size m)) by lia. apply IH. intros j Hj.
  rewrite lookup_delete_ne; [apply Hall; lia|].
  intros Heq%Sprintf_path_inj. lia.
Qed.

(** The loop appends the legs of the indices from [i] up to the first one
    the form lacks, or up to the end of its fuel. *)
Lemma pathLoop_spec r : ∀ fuel i path, ∃ n,
  pathLoop fuel r i path = path ++ (pathLeg r <$> seq i n)
  ∧ n ≤ fuel
  ∧ (∀ j, i ≤ j < i + n → hasLeg r j)
  ∧ (n < fuel → ¬ hasLeg r (i + n)).
Proof.
  induction fuel as [|fuel IH]; intros i path; simpl.
  { exists 0. rewrite app_nil_r. repeat split; lia. }
  destruct (PostForm r !! fmt.Sprintf_path "asset_code" i) as [vs|] eqn:Hi.
  - destruct (IH (S i) (path ++ [pathLeg r i])) as (n & Heq & Hle & Hall & Hstop).
    exists (S n). rewrite Heq, <-app_assoc. simpl. repeat split; [lia| |].
    + intros j Hj. destruct (decide (j = i)) as [->|Hne].
      * unfold hasLeg. by rewrite Hi.
      * apply Hall. lia.
    + intros Hlt. replace (i + S n) with (S i + n) by lia. apply Hstop. lia.
  - exists 0. rewrite app_nil_r. repeat split; [lia|intros; lia|].
    intros _. rewrite Nat.add_0_r. unfold hasLeg. rewrite Hi. by intros [? ?].
Qed.

(** With more fuel than the form has fields the loop ends by its [break]. *)
Lemma pathLoop_fuel r fuel : size (PostForm r) < fuel → ∃ n,
  pathLoop fuel r 0 [] = pathLeg r <$> seq 0 n
  ∧ (∀ j, j < n → hasLeg r j)
  ∧ ¬ hasLeg r n.
Proof.
  intros Hfuel.
  destruct (pathLoop_spec r fuel 0 []) as (n & Heq & Hle & Hall & Hstop).
  exists n. split; [done|]. split; [intros j Hj; apply Hall; lia|].
  apply (Hstop : n < fuel → ¬ hasLeg r (0 + n)).
  assert (n ≤ size (PostForm r)); [|lia].
  apply (fields_le_size "asset_code"). intros j Hj. apply Hall. lia.
Qed.

Lemma discoverPath_spec r : ∃ n,
  discoverPath r = pathLeg r <$> seq 0 n
  ∧ (∀ j, j < n → hasLeg r j)
  ∧ ¬ hasLeg r n.
Proof. apply pathLoop_fuel. lia. Qed.

(** The fuel does not matter once it exceeds the number of fields. *)
Lemma pathLoop_enough_fuel r fuel :
  size (PostForm r) < fuel → pathLoop fuel r 0 [] = discoverPath r.
Proof.
  intros Hfuel.
  destruct (pathLoop_fuel r fuel Hfuel) as (n & -> & Hall & Hstop).
  destruct (discoverPath_spec r) as (n' & -> & Hall' & Hstop').
  destruct (Nat.lt_trichotomy n n') as [Hlt|[->|Hlt]]; [|done|].
  - destruct Hstop. by apply Hall'.
  - destruct Hstop'. by apply Hall.
Qed.

Lemma discoverPath_length_lt r i :
  i < length (discoverPath r) ↔ ∀ j, j ≤ i → hasLeg r j.
Proof.
  destruct (discoverPath_spec r) as (n & -> & Hall & Hstop).
  rewrite length_fmap, length_seq. split.
  - intros Hi j Hj. apply Hall. lia.
  - intros Hpre. destruct (decide (i < n)) as [|Hge]; [done|].
    destruct Hstop. apply Hpre. lia.
Qed.

Lemma discoverPath_lookup r i :
  i < length (discoverPath r) → discoverPath r !! i = Some (pathLeg r i).
Proof.
  destruct (discoverPath_spec r) as (n & -> & _ & _).
  rewrite length_fmap, length_seq. intros Hi.
  rewrite list_lookup_fmap, lookup_seq_lt by done. done.
Qed.

End PathDiscovery.

(** ** The handler's blocks *)

Section Claims.

Context {build : b.Library} {keys : keypair.Library} {W SubmitResponse : Type}.
Variable rh : RequestHandler W SubmitResponse.

Ltac handler_unfold :=
  unfold bind, ret, writeError, panic, call in *.

Lemma Payment_afterMemoParams r st source kp dest st1 op st2 memoType memo :
  resolveDestination rh r st = (Continue (source, kp, dest), st1) →
  chooseOperation rh r dest st1 = (Continue op, st2) →
  memoParams r st2 = (Continue (memoType, memo), st2) →
  Payment rh r st = afterMemoParams rh source kp dest op memoType memo st2.
Proof.
  intros Hres Hop Hmemo. unfold Payment, afterMemoParams.
  unfold bind at 1. rewrite Hres. unfold bind at 1. rewrite Hop.
  unfold bind at 1. rewrite Hmemo. reflexivity.
Qed.

(** The blocks on the memo leave the state as it is. *)
Lemma memoParams_state r (st st' : State W) x :
  memoParams r st = (x, st') → st' = st.
Proof. unfold memoParams. case_match; handler_unfold; by intros [= _ <-]. Qed.

Lemma memoOverride_state d memoType memo (st st' : State W) x :
  memoOverride d memoType memo st = (x, st') → st' = st.
Proof.
  unfold memoOverride. repeat case_match; handler_unfold; by intros [= _ <-].
Qed.

Lemma memoDispatch_state memoType memo (st st' : State W) x :
  memoDispatch memoType memo st = (x, st') → st' = st.
Proof.
  unfold memoDispatch. repeat case_match; handler_unfold; by intros [= _ <-].
Qed.

(** The joint check of the memo parameters, read back. *)
Lemma memoParams_Continue r (st st' : State W) memoType memo :
  memoParams r st = (Continue (memoType, memo), st') →
  memoType = PostFormValue r "memo_type" ∧ memo = PostFormValue r "memo"
  ∧ (memoType = "" ↔ memo = "").
Proof.
  unfold memoParams. handler_unfold.
  destruct (negb _) eqn:Hcheck; [done|]. intros [= <- <- _].
  split; [done|]. split; [done|].
  apply negb_false_iff in Hcheck.
  repeat case_bool_decide; simpl in *; try done; naive_solver.
Qed.

(** ** The memo *)

(** C9: for a resolved destination whose memo type is present exactly when
    its memo value is, the memo-override block never reads an absent memo
    value (it does not panic).  The invariant is needed: the block panics
    exactly when the destination has a memo type and no memo value and the
    request has no memo type. *)
Theorem memoOverride_reads_present_memo :
  (∀ d memoType memo (st : State W),
     memoInvariant d → (memoOverride d memoType memo st).1 ≠ Stop Panicked)
  ∧ (∀ d memoType memo (st : State W),
       (memoOverride d memoType memo st).1 = Stop Panicked
       ↔ is_Some (MemoType d) ∧ Memo d = None ∧ memoType = "").
Proof.
  assert (∀ d memoType memo (st : State W),
    (memoOverride d memoType memo st).1 = Stop Panicked
    ↔ is_Some (MemoType d) ∧ Memo d = None ∧ memoType = "") as Hiff.
  { intros d memoType memo st. unfold memoOverride.
    destruct (MemoType d) as [t|]; [|handler_unfold; simpl; split; [done|]].
    - case_bool_decide as Hmt; handler_unfold; simpl.
      + split; [done|]. by intros (_ & _ & ->).
      + destruct (Memo d); simpl.
        * split; [done|]. by intros (_ & [=] & _).
        * by split; [|intros _].
    - by intros ([? [=]] & _). }
  split; [|done].
  intros d memoType memo st Hinv [Hty [Hval _]]%Hiff.
  apply Hinv in Hty. rewrite Hval in Hty. by destruct Hty.
Qed.

(** C7: the memo mutator by memo type.  For ["id"] a memo that is the
    decimal text of no unsigned 64-bit number ends with [InvalidMemo], and
    the text of such a number [n] (the decimal rendering of every [n] below
    [2^64] is one) gives [MemoID n]; for ["hash"] the memo must decode, as
    hexadecimal, to exactly 32 bytes (so it has 64 characters), else
    [InvalidMemo]; for ["text"] every memo is taken; any other non-empty memo type ends with [InvalidMemo]. *)
Theorem memoDispatch_by_type :
  (∀ memo (st : State W),
     (∀ n, ¬ isUint64 memo n) →
     memoDispatch "id" memo st = (Stop (WroteError PaymentInvalidMemo), st))
  ∧ (∀ memo n (st : State W),
       isUint64 memo n →
       memoDispatch "id" memo st = (Continue (Some (b.MemoID n)), st))
  ∧ (∀ (n : N) (st : State W),
       (n < 2 ^ 64)%N →
       memoDispatch "id" (pretty n) st = (Continue (Some (b.MemoID n)), st))
  ∧ (∀ memo bytes (st : State W),
       hex.DecodeString memo = Some bytes → length bytes = 32 →
       memoDispatch "hash" memo st = (Continue (Some (b.MemoHash bytes)), st))
  ∧ (∀ memo (st : State W),
       (∀ bytes, hex.DecodeString memo = Some bytes → length bytes ≠ 32) →
       memoDispatch "hash" memo st = (Stop (WroteError PaymentInvalidMemo), st))
  ∧ (∀ memo (st : State W),
       String.length memo ≠ 64 →
       memoDispatch "hash" memo st = (Stop (WroteError PaymentInvalidMemo), st))
  ∧ (∀ memo (st : State W),
       memoDispatch "text" memo st = (Continue (Some (b.MemoText memo)), st))
  ∧ (∀ memoType memo (st : State W),
       memoType ≠ "" → memoType ≠ "id" → memoType ≠ "text" → memoType ≠ "hash" →
       memoDispatch memoType memo st = (Stop (WroteError PaymentInvalidMemo), st))
  ∧ (∀ r st source kp dest st1 op st2 userType userMemo memoType memo x,
       resolveDestination rh r st = (Continue (source, kp, dest), st1) →
       chooseOperation rh r dest st1 = (Continue op, st2) →
       memoParams r st2 = (Continue (userType, userMemo), st2) →
       memoOverride dest userType userMemo st2 = (Continue (memoType, memo), st2) →
       memoDispatch memoType memo st2 = (Stop x, st2) →
       Payment rh r st = (Stop x, st2)).
Proof.
  assert (∀ memo n (st : State W), strconv.ParseUint memo = Some n →
    memoDispatch "id" memo st = (Continue (Some (b.MemoID n)), st)) as Hid.
  { intros memo n st Hn. unfold memoDispatch. simpl. by rewrite Hn. }
  split_and!.
  - intros memo st Hno. unfold memoDispatch. simpl.
    destruct (strconv.ParseUint memo) as [n|] eqn:Hn; [|done].
    destruct (Hno n). by apply ParseUint_spec.
  - intros memo n st Hn. by apply Hid, ParseUint_spec.
  - intros n st Hn. apply Hid, ParseUint_pretty. unfold strconv.maxUint64. lia.
  - intros memo bytes st Hdec Hlen. unfold memoDispatch. simpl. rewrite Hdec.
    rewrite bool_decide_eq_false_2 by (by intros ?).
    by rewrite take_ge by lia.
  - intros memo st Hno. unfold memoDispatch. simpl.
    destruct (hex.DecodeString memo) as [bytes|] eqn:Hdec; [|done].
    by rewrite bool_decide_eq_true_2 by (by apply Hno).
  - intros memo st Hlen. unfold memoDispatch. simpl.
    destruct (hex.DecodeString memo) as [bytes|] eqn:Hdec; [|done].
    apply DecodeString_length in Hdec.
    by rewrite bool_decide_eq_true_2 by lia.
  - intros memo st. reflexivity.
  - intros memoType memo st H1 H2 H3 H4. unfold memoDispatch.
    by rewrite !bool_decide_eq_false_2 by done.
  - intros r st source kp dest st1 op st2 userType userMemo memoType memo x
      Hres Hop Hmemo Hover Hstop.
    rewrite (Payment_afterMemoParams _ _ _ _ _ _ _ _ _ _ Hres Hop Hmemo).
    unfold afterMemoParams. unfold bind at 1. rewrite Hover.
    unfold bind at 1. by rewrite Hstop.
Qed.

(** ** The operation *)

(** The three ways of an asset pair, with the value of the two tests the
    composers make on it. *)
Lemma pair_cases (code issuer : string) :
  (bool_decide (code ≠ "") && bool_decide (issuer ≠ "") = true
   ∧ code ≠ "" ∧ issuer ≠ "")
  ∨ (bool_decide (code ≠ "") && bool_decide (issuer ≠ "") = false
     ∧ bool_decide (code = "") && bool_decide (issuer = "") = true
     ∧ code = "" ∧ issuer = "")
  ∨ (bool_decide (code ≠ "") && bool_decide (issuer ≠ "") = false
     ∧ bool_decide (code = "") && bool_decide (issuer = "") = false
     ∧ partialPair code issuer).
Proof.
  unfold partialPair.
  destruct (decide (code = "")) as [Hc|Hc], (decide (issuer = "")) as [Hi|Hi].
  - right; left. rewrite !(bool_decide_eq_false_2 (_ ≠ _)) by (by intros ?).
    by rewrite !bool_decide_eq_true_2.
  - right; right. rewrite (bool_decide_eq_false_2 (code ≠ _)) by (by intros ?).
    rewrite (bool_decide_eq_false_2 (issuer = _)) by done.
    rewrite andb_false_r. auto.
  - right; right. rewrite (bool_decide_eq_false_2 (issuer ≠ _)) by (by intros ?).
    rewrite (bool_decide_eq_false_2 (code = _)) by done.
    rewrite andb_false_r. auto.
  - left. by rewrite !bool_decide_eq_true_2.
Qed.

Ltac pair_cases code issuer :=
  let H1 := fresh "Htest" in
  let H2 := fresh "Htest" in
  destruct (pair_cases code issuer)
    as [(H1 & ? & ?)|[(H1 & H2 & ? & ?)|(H1 & H2 & ?)]];
  rewrite ?H1, ?H2.


(** The [errorResponse] that goes with an operation builder. *)
Lemma createPaymentOperation_native r dest (st : State W) :
  PostFormValue r "asset_code" = "" →
  PostFormValue r "asset_issuer" = "" →
  let mutators := [b.Destination (AccountId dest);
                   b.NativeAmount (PostFormValue r "amount")] in
  let lookup := LoadAccount (Horizon rh) (AccountId dest) (world st) in
  let operation := match lookup.1 with
                   | Err _ => b.CreateAccount mutators
                   | Ok _ => b.Payment mutators
                   end in
  createPaymentOperation rh r dest st
  = (Continue (Some operation, builderError operation),
     {| world := lookup.2;
        calls := calls st ++ [CallLoadAccount (AccountId dest)] |}).
Proof.
  intros Hcode Hissuer. unfold createPaymentOperation.
  rewrite Hcode, Hissuer. simpl. handler_unfold.
  destruct (LoadAccount _ _ _) as [[a|e] w];
    unfold builderError, b.Payment, b.CreateAccount; simpl; by case_match.
Qed.

(** C1: a payment request with no asset code and no asset issuer asks the
    ledger client for the destination account once, and the operation is
    [CreateAccount(destination, amount)] when that call returns an error and
    [Payment(destination, native amount)] when it succeeds; after a failed
    lookup the operation is never a payment.  The handler goes on with that
    operation unless the builder reports an error. *)
Theorem native_payment_operation r dest (st : State W) :
  PostFormValue r "type" = "payment" →
  PostFormValue r "asset_code" = "" →
  PostFormValue r "asset_issuer" = "" →
  let mutators := [b.Destination (AccountId dest);
                   b.NativeAmount (PostFormValue r "amount")] in
  let lookup := LoadAccount (Horizon rh) (AccountId dest) (world st) in
  let st' := {| world := lookup.2;
                calls := calls st ++ [CallLoadAccount (AccountId dest)] |} in
  let operation := match lookup.1 with
                   | Err _ => b.CreateAccount mutators
                   | Ok _ => b.Payment mutators
                   end in
  createPaymentOperation rh r dest st
    = (Continue (Some operation, builderError operation), st')
  ∧ chooseOperation rh r dest st
    = (match b.Err operation with
       | Some _ => Stop (WroteError ServerError)
       | None => Continue (Some operation)
       end, st')
  ∧ (∀ e, lookup.1 = Err e → ∀ muts err, operation ≠ b.PaymentBuilder muts err).
Proof.
  intros Htype Hcode Hissuer mutators lookup st' operation.
  pose proof (createPaymentOperation_native r dest st Hcode Hissuer) as Hcreate.
  cbv zeta in Hcreate. fold mutators lookup operation st' in Hcreate.
  split_and!; [done| |].
  - unfold chooseOperation. rewrite Htype. simpl. unfold bind.
    rewrite Hcreate. unfold builderError. by destruct (b.Err operation).
  - intros e He muts err. unfold operation. by rewrite He.
Qed.

(** C10: a payment request with an asset code, an asset issuer and an issuer
    that parses as a key makes no call at all (the state is unchanged) and
    its operation is the payment of the issued asset.  [createPaymentOperation]
    returns a [CreateAccount] only for a request with neither code nor issuer
    whose destination lookup failed, and [createPathPaymentOperation] never. *)
Theorem issued_payment_operation :
  (∀ r dest (st : State W) issuerKeypair,
     PostFormValue r "asset_code" ≠ "" →
     PostFormValue r "asset_issuer" ≠ "" →
     keypair.Parse (PostFormValue r "asset_issuer") = Ok issuerKeypair →
     let operation :=
       b.Payment [b.Destination (AccountId dest);
                  b.CreditAmount (PostFormValue r "asset_code")
                    (keypair.Address issuerKeypair) (PostFormValue r "amount")] in
     createPaymentOperation rh r dest st
     = (Continue (Some operation, builderError operation), st))
  ∧ (∀ r dest (st st' : State W) muts err errorResponse,
       createPaymentOperation rh r dest st
       = (Continue (Some (b.CreateAccountBuilder muts err), errorResponse), st') →
       PostFormValue r "asset_code" = "" ∧ PostFormValue r "asset_issuer" = ""
       ∧ ∃ e, (LoadAccount (Horizon rh) (AccountId dest) (world st)).1 = Err e)
  ∧ (∀ r dest (st st' : State W) muts err errorResponse,
       createPathPaymentOperation (W := W) r dest st
       ≠ (Continue (Some (b.CreateAccountBuilder muts err), errorResponse), st')).
Proof.
  split_and!.
  - intros r dest st kp Hcode Hissuer Hparse operation.
    unfold createPaymentOperation.
    rewrite !bool_decide_eq_true_2 by done. simpl. rewrite Hparse.
    unfold operation, builderError, b.Payment. simpl. by case_match.
  - intros r dest st st' muts err errorResponse. unfold createPaymentOperation.
    repeat case_bool_decide; simpl; try done.
    + destruct (keypair.Parse _); [|done]. by case_match.
    + handler_unfold. destruct (LoadAccount _ _ _) as [[a|e] w]; simpl.
      * by case_match.
      * intros _. eauto.
  - intros r dest st st' muts err errorResponse. unfold createPathPaymentOperation.
    pair_cases (PostFormValue r "send_asset_code")
               (PostFormValue r "send_asset_issuer"); [| |done];
    (pair_cases (PostFormValue r "destination_asset_code")
                (PostFormValue r "destination_asset_issuer"); [| |done];
     unfold b.PathPayment; simpl; by case_match).
Qed.

(** ** Asset pairs and path legs *)

(** A partially given pair ends the payment composer with
    [MissingParamAsset]. *)
Lemma partial_asset_pair_rejected r dest (st : State W) :
  partialPair (PostFormValue r "asset_code") (PostFormValue r "asset_issuer") →
  createPaymentOperation rh r dest st
  = (Continue (None, Some PaymentMissingParamAsset), st).
Proof.
  intros Hpartial. unfold createPaymentOperation.
  pair_cases (PostFormValue r "asset_code") (PostFormValue r "asset_issuer");
    unfold partialPair in *; [tauto|tauto|done].
Qed.

(** So do a partially given send pair and a partially given destination
    pair end the path-payment composer. *)
Lemma partial_send_pair_rejected r dest (st : State W) :
  partialPair (PostFormValue r "send_asset_code")
              (PostFormValue r "send_asset_issuer") →
  createPathPaymentOperation r dest st
  = (Continue (None, Some PaymentMissingParamAsset), st).
Proof.
  intros Hpartial. unfold createPathPaymentOperation.
  pair_cases (PostFormValue r "send_asset_code")
             (PostFormValue r "send_asset_issuer");
    unfold partialPair in *; [tauto|tauto|done].
Qed.

Lemma partial_destination_pair_rejected r dest (st : State W) :
  ¬ partialPair (PostFormValue r "send_asset_code")
                (PostFormValue r "send_asset_issuer") →
  partialPair (PostFormValue r "destination_asset_code")
              (PostFormValue r "destination_asset_issuer") →
  createPathPaymentOperation r dest st
  = (Continue (None, Some PaymentMissingParamAsset), st).
Proof.
  intros Hsend Hpartial. unfold createPathPaymentOperation.
  pair_cases (PostFormValue r "send_asset_code")
             (PostFormValue r "send_asset_issuer"); [| |done];
  (pair_cases (PostFormValue r "destination_asset_code")
              (PostFormValue r "destination_asset_issuer");
   unfold partialPair in *; [tauto|tauto|done]).
Qed.

(** What [createPathPaymentOperation] returns once the send and the
    destination pair are each given whole or not at all. *)
Lemma createPathPaymentOperation_whole_pairs r dest (st : State W) :
  ¬ partialPair (PostFormValue r "send_asset_code")
                (PostFormValue r "send_asset_issuer") →
  ¬ partialPair (PostFormValue r "destination_asset_code")
                (PostFormValue r "destination_asset_issuer") →
  let operation :=
    b.PathPayment
      [b.Destination (AccountId dest);
       b.PathSend (wholeAsset (PostFormValue r "send_asset_code")
                              (PostFormValue r "send_asset_issuer"))
                  (PostFormValue r "send_max");
       b.PathDestination
         (wholeAsset (PostFormValue r "destination_asset_code")
                     (PostFormValue r "destination_asset_issuer"))
         (PostFormValue r "destination_amount");
       b.Path (discoverPath r)] in
  createPathPaymentOperation r dest st
  = (Continue (Some operation, builderError operation), st).
Proof.
  intros Hsend Hdest. unfold createPathPaymentOperation, wholeAsset.
  pair_cases (PostFormValue r "send_asset_code")
             (PostFormValue r "send_asset_issuer"); [| |done];
  (pair_cases (PostFormValue r "destination_asset_code")
              (PostFormValue r "destination_asset_issuer"); [| |done]);
  clear Hsend Hdest;
  repeat match goal with
         | H : ?x ≠ "" |- context [bool_decide (?x ≠ "")] =>
             rewrite (bool_decide_eq_true_2 (x ≠ "") H)
         | H : ?x = "" |- context [bool_decide (?x ≠ "")] =>
             rewrite (bool_decide_eq_false_2 (x ≠ "")) by (by intros ?)
         end;
  unfold builderError, b.PathPayment; simpl; by case_match.
Qed.

(** C3, on the code: a path leg with a code and no issuer, or an issuer and
    no code, is not refused.  With whole send and destination pairs the
    composer returns a path payment whose leg [i] is the asset made of the
    two fields as they are, and its error is never [MissingParamAsset]. *)
Theorem partial_path_leg_not_rejected r dest (st : State W) i :
  ¬ partialPair (PostFormValue r "send_asset_code")
                (PostFormValue r "send_asset_issuer") →
  ¬ partialPair (PostFormValue r "destination_asset_code")
                (PostFormValue r "destination_asset_issuer") →
  (∀ j, j ≤ i → hasLeg r j) →
  partialPair (PostFormValue r (fmt.Sprintf_path "asset_code" i))
              (PostFormValue r (fmt.Sprintf_path "asset_issuer" i)) →
  ∃ operation a1 a2 a3 path err,
    createPathPaymentOperation r dest st
    = (Continue (Some operation, builderError operation), st)
    ∧ operation = b.PathPaymentBuilder [a1; a2; a3; b.Path path] err
    ∧ path !! i
      = Some {| b.Code := PostFormValue r (fmt.Sprintf_path "asset_code" i);
                b.Issuer := PostFormValue r (fmt.Sprintf_path "asset_issuer" i);
                b.Native := false |}
    ∧ builderError operation ≠ Some PaymentMissingParamAsset.
Proof.
  intros Hsend Hdest Hlegs Hpartial.
  pose proof (createPathPaymentOperation_whole_pairs r dest st Hsend Hdest)
    as Hcreate.
  cbv zeta in Hcreate. eexists _, _, _, _, _, _. split; [exact Hcreate|].
  split; [reflexivity|]. split.
  - rewrite discoverPath_lookup by (by apply discoverPath_length_lt).
    f_equal. unfold pathLeg.
    pair_cases (PostFormValue r (fmt.Sprintf_path "asset_code" i))
               (PostFormValue r (fmt.Sprintf_path "asset_issuer" i));
      unfold partialPair in *; [tauto|tauto|done].
  - unfold builderError. by case_match.
Qed.

(** C6: the path holds leg [i] exactly when the form has the code field of
    every index up to [i], and leg [i] is made of the fields of index [i];
    a form with the fields of indices 0 and 1 and without that of index 2
    gives two legs, whatever it has at index 3; a form without the field of
    index 0 gives no leg.  The loop stops by itself: any fuel above the
    number of fields gives the same path.  The path payment built carries
    this path. *)
Theorem path_legs_stop_at_first_gap :
  (∀ r i, i < length (discoverPath r) ↔ ∀ j, j ≤ i → hasLeg r j)
  ∧ (∀ r i, i < length (discoverPath r) → discoverPath r !! i = Some (pathLeg r i))
  ∧ (∀ r, hasLeg r 0 → hasLeg r 1 → ¬ hasLeg r 2 → length (discoverPath r) = 2)
  ∧ (∀ r, ¬ hasLeg r 0 → discoverPath r = [])
  ∧ (∀ r fuel, size (PostForm r) < fuel → pathLoop fuel r 0 [] = discoverPath r)
  ∧ (∀ r dest (st st' : State W) muts err errorResponse,
       createPathPaymentOperation r dest st
       = (Continue (Some (b.PathPaymentBuilder muts err), errorResponse), st') →
       muts !! 3 = Some (b.Path (discoverPath r))).
Proof.
  split_and!.
  - apply discoverPath_length_lt.
  - apply discoverPath_lookup.
  - intros r H0 H1 H2.
    assert (1 < length (discoverPath r)) as Hlt.
    { apply discoverPath_length_lt. intros j Hj.
      destruct j as [|[|j]]; [done|done|lia]. }
    assert (¬ 2 < length (discoverPath r)) as Hge.
    { intros Hlen. apply H2. by apply (discoverPath_length_lt r 2). }
    lia.
  - intros r H0. destruct (discoverPath r) as [|a l] eqn:Hpath; [done|].
    destruct H0. apply (discoverPath_length_lt r 0); [|done].
    rewrite Hpath. simpl. lia.
  - apply pathLoop_enough_fuel.
  - intros r dest st st' muts err errorResponse.
    destruct (decide (partialPair (PostFormValue r "send_asset_code")
                                  (PostFormValue r "send_asset_issuer")))
      as [Hsend|Hsend].
    { by rewrite (partial_send_pair_rejected r dest st Hsend). }
    destruct (decide (partialPair (PostFormValue r "destination_asset_code")
                                  (PostFormValue r "destination_asset_issuer")))
      as [Hdest|Hdest].
    { by rewrite (partial_destination_pair_rejected r dest st Hsend Hdest). }
    rewrite (createPathPaymentOperation_whole_pairs r dest st Hsend Hdest).
    unfold b.PathPayment. by intros [= <- _ _ _].
Qed.

(** ** Assembly *)

Lemma Payment_assembly r st source kp op memoMutator st2 :
  reachesAssembly rh r st source kp op memoMutator st2 →
  Payment rh r st = assembly rh source kp op memoMutator st2.
Proof.
  intros (dest & st1 & userType & userMemo & memoType & memo
          & Hres & Hop & Hmemo & Hover & Hdispatch).
  rewrite (Payment_afterMemoParams _ _ _ _ _ _ _ _ _ _ Hres Hop Hmemo).
  unfold afterMemoParams. unfold bind at 1. rewrite Hover.
  unfold bind at 1. by rewrite Hdispatch.
Qed.

Lemma chooseOperation_empty_type r dest (st : State W) :
  PostFormValue r "type" = "" →
  chooseOperation rh r dest st = (Continue None, st).
Proof. intros Htype. unfold chooseOperation. by rewrite Htype. Qed.

(** C2, on the code: a request with an empty type that gets as far as
    loading the source account, and whose sequence number parses, has no
    operation, and the handler panics on the type assertion of the nil
    operation: it writes no [ServerError]. *)
Theorem empty_type_panics r st source kp op memoMutator st2 sequenceNumber st3 :
  PostFormValue r "type" = "" →
  reachesAssembly rh r st source kp op memoMutator st2 →
  loadSequence rh kp st2 = (Continue sequenceNumber, st3) →
  op = None
  ∧ Payment rh r st = (Stop Panicked, st3)
  ∧ Payment rh r st ≠ (Stop (WroteError ServerError), st3).
Proof.
  intros Htype Hreach Hload.
  rewrite (Payment_assembly _ _ _ _ _ _ _ Hreach).
  destruct Hreach as (dest & st1 & _ & _ & _ & _ & _ & Hop & _).
  rewrite (chooseOperation_empty_type _ _ _ Htype) in Hop.
  injection Hop as <- _.
  assert (assembly rh source kp None memoMutator st2 = (Stop Panicked, st3)) as ->.
  { unfold assembly. unfold bind at 1. by rewrite Hload. }
  done.
Qed.

Lemma loadSequence_cases kp (st : State W) :
  let lookup := LoadAccount (Horizon rh) (keypair.Address kp) (world st) in
  loadSequence rh kp st
  = (match lookup.1 with
     | Err _ => Stop (WroteError PaymentSourceNotExist)
     | Ok accountResponse =>
         match strconv.ParseUint (SequenceNumber accountResponse) with
         | None => Stop (WroteError ServerError)
         | Some sequenceNumber => Continue sequenceNumber
         end
     end,
     {| world := lookup.2;
        calls := calls st ++ [CallLoadAccount (keypair.Address kp)] |}).
Proof.
  unfold loadSequence. handler_unfold.
  destruct (LoadAccount _ _ _) as [[a|e] w]; simpl; [|done]. by case_match.
Qed.

(** C8, as the code has it: when the source account fails to load the
    handler ends with [SourceNotExist]; when it loads and its sequence number
    is not the text of an unsigned 64-bit number, with [ServerError]; and
    when the sequence number is [n], the mutators of the transaction are the
    source, the sequence [(n + 1) mod 2^64], the network, the operation and
    the memo if there is one.  The sequence is [n + 1] for every [n] below
    [2^64 - 1]. *)
Theorem source_sequence_incremented r st source kp op memoMutator st2 :
  reachesAssembly rh r st source kp op memoMutator st2 →
  let lookup := LoadAccount (Horizon rh) (keypair.Address kp) (world st2) in
  let st3 := {| world := lookup.2;
                calls := calls st2 ++ [CallLoadAccount (keypair.Address kp)] |} in
  (∀ e, lookup.1 = Err e →
     Payment rh r st = (Stop (WroteError PaymentSourceNotExist), st3))
  ∧ (∀ a, lookup.1 = Ok a → (∀ n, ¬ isUint64 (SequenceNumber a) n) →
       Payment rh r st = (Stop (WroteError ServerError), st3))
  ∧ (∀ a n operation,
       lookup.1 = Ok a → isUint64 (SequenceNumber a) n → op = Some operation →
       let mutators :=
         [b.SourceAccount source;
          b.Sequence ((n + 1) mod 2 ^ 64)%N;
          b.Network (NetworkPassphrase (config rh));
          b.Operation operation]
         ++ match memoMutator with Some memo => [b.Memo memo] | None => [] end in
       loadSequence rh kp st2 = (Continue n, st3)
       ∧ composeMutators rh source n op memoMutator st3
         = (Continue mutators, st3)
       ∧ Payment rh r st = submit rh source mutators st3
       ∧ ((n < 2 ^ 64 - 1)%N → ((n + 1) mod 2 ^ 64 = n + 1)%N)).
Proof.
  intros Hreach lookup st3.
  rewrite (Payment_assembly _ _ _ _ _ _ _ Hreach). clear Hreach.
  pose proof (loadSequence_cases kp st2) as Hload. cbv zeta in Hload.
  fold lookup in Hload. fold st3 in Hload.
  unfold assembly. split_and!.
  - intros e He. unfold bind at 1. by rewrite Hload, He.
  - intros a Ha Hno. unfold bind at 1. rewrite Hload, Ha.
    destruct (strconv.ParseUint _) as [n|] eqn:Hn; [|done].
    destruct (Hno n). by apply ParseUint_spec.
  - intros a n operation Ha Hn ->. cbv zeta. apply ParseUint_spec in Hn.
    rewrite Ha, Hn in Hload.
    set (mutators := [_; _; _; _] ++ _).
    assert (composeMutators rh source n (Some operation) memoMutator st3
            = (Continue mutators, st3)) as Hmut.
    { unfold composeMutators, mutators, uint64_add.
      by destruct memoMutator. }
    split_and!; [done|done| |].
    + unfold bind at 1. rewrite Hload. unfold bind at 1. by rewrite Hmut.
    + intros Hlt. apply N.mod_small. lia.
Qed.

Section Contains.
Import strings.

Lemma HasPrefix_spec prefix : ∀ s,
  HasPrefix s prefix = true ↔ ∃ post, s = prefix +:+ post.
Proof.
  induction prefix as [|p prefix IH]; intros s.
  { destruct s; (split; [by eexists|done]). }
  destruct s as [|c s]; simpl.
  { split; [done|]. by intros [post [=]]. }
  destruct (Ascii.eqb_spec p c) as [->|Hne].
  - rewrite IH. split; intros [post Hpost]; exists post.
    + by rewrite append_cons, Hpost.
    + rewrite append_cons in Hpost. by injection Hpost.
  - split; [done|]. intros [post Hpost]. rewrite append_cons in Hpost.
    injection Hpost as -> _. done.
Qed.

(** [Contains] is the test of a substring. *)
Lemma Contains_spec sub : ∀ s, Contains s sub = true ↔ isSubstring sub s.
Proof.
  unfold isSubstring. induction s as [|c s IH].
  - change (Contains "" sub) with (HasPrefix "" sub || false).
    rewrite orb_false_r, HasPrefix_spec. split.
    + intros [post ->]. by exists "", post.
    + intros ([|c pre] & post & Hs); [by exists post|done].
  - change (Contains (String c s) sub)
      with (HasPrefix (String c s) sub || Contains s sub).
    rewrite orb_true_iff, HasPrefix_spec, IH. split.
    + intros [[post ->]|(pre & post & ->)].
      * by exists "", post.
      * by exists (String c pre), post.
    + intros ([|c' pre] & post & Hs).
      * left. by exists post.
      * right. rewrite append_cons in Hs. injection Hs as -> ->.
        by exists pre, post.
Qed.

End Contains.

(** C4, as the code has it: a transaction builder that ends with an error
    makes the handler end with [MalformedAssetCode] when the error text is
    exactly ["Asset code length is invalid"], otherwise with [InvalidAmount]
    when the text contains ["cannot parse amount"], and otherwise with
    [ServerError]: equality of texts for the first, a substring for the
    second. *)
Theorem builder_error_classified :
  (∀ r st source kp op memoMutator st2 sequenceNumber st3 mutators text,
     reachesAssembly rh r st source kp op memoMutator st2 →
     loadSequence rh kp st2 = (Continue sequenceNumber, st3) →
     composeMutators rh source sequenceNumber op memoMutator st3
     = (Continue mutators, st3) →
     b.TransactionErr mutators = Some text →
     Payment rh r st = (Stop (WroteError (builderErrorResponse text)), st3))
  ∧ builderErrorResponse "Asset code length is invalid" = PaymentMalformedAssetCode
  ∧ (∀ text, text ≠ "Asset code length is invalid" →
       isSubstring "cannot parse amount" text →
       builderErrorResponse text = PaymentInvalidAmount)
  ∧ (∀ text, text ≠ "Asset code length is invalid" →
       ¬ isSubstring "cannot parse amount" text →
       builderErrorResponse text = ServerError).
Proof.
  split_and!.
  - intros r st source kp op memoMutator st2 sequenceNumber st3 mutators text
      Hreach Hload Hmut Herr.
    rewrite (Payment_assembly _ _ _ _ _ _ _ Hreach). unfold assembly.
    unfold bind at 1. rewrite Hload. unfold bind at 1. rewrite Hmut.
    unfold submit. by rewrite Herr.
  - reflexivity.
  - intros text Hne Hsub. unfold builderErrorResponse.
    rewrite bool_decide_eq_false_2 by done.
    apply Contains_spec in Hsub. by rewrite Hsub.
  - intros text Hne Hsub. unfold builderErrorResponse.
    rewrite bool_decide_eq_false_2 by done.
    destruct (strings.Contains text "cannot parse amount") eqn:Hc; [|done].
    by apply Contains_spec in Hc.
Qed.

End Claims.

(** * The handler on concrete requests *)

Section Runs.

Local Existing Instance Mock.builder.
Local Existing Instance Mock.keys.

Ltac run := vm_compute; reflexivity.

(** A payment between two accounts Horizon knows is submitted, after four
    calls. *)
Example Payment_submitted :
  Payment Mock.rhAB Mock.nativePayment Mock.start
  = (Continue "submitted",
     {| world := ();
        calls := [CallResolve "GB"; CallLoadAccount "GB"; CallLoadAccount "GA";
                  CallSubmitTransaction "envelope"] |}).
Proof. run. Qed.

Lemma reaches_nativePayment :
  reachesAssembly (keys := Mock.keys) Mock.rhAB Mock.nativePayment Mock.start "GA" "GA"
    (Some (b.PaymentBuilder [b.Destination "GB"; b.NativeAmount "10"] None)) None
    {| world := (); calls := [CallResolve "GB"; CallLoadAccount "GB"] |}.
Proof.
  exists Mock.destGB, {| world := (); calls := [CallResolve "GB"] |}, "", "", "", "".
  split_and!; run.
Qed.

Lemma native_payment_operation_witness :
  createPaymentOperation Mock.rhAB Mock.nativePayment Mock.destGB Mock.start
  = (Continue (Some (b.PaymentBuilder
                       [b.Destination "GB"; b.NativeAmount "10"] None), None),
     {| world := (); calls := [CallLoadAccount "GB"] |})
  ∧ createPaymentOperation Mock.rhAB Mock.nativePayment Mock.destGC Mock.start
    = (Continue (Some (b.CreateAccountBuilder
                         [b.Destination "GC"; b.NativeAmount "10"] None), None),
       {| world := (); calls := [CallLoadAccount "GC"] |}).
Proof.
  split.
  - exact (proj1 (native_payment_operation Mock.rhAB Mock.nativePayment
                    Mock.destGB Mock.start eq_refl eq_refl eq_refl)).
  - exact (proj1 (native_payment_operation Mock.rhAB Mock.nativePayment
                    Mock.destGC Mock.start eq_refl eq_refl eq_refl)).
Defined.

Lemma reaches_untyped :
  reachesAssembly (keys := Mock.keys) Mock.rhAB Mock.untyped Mock.start "GA" "GA" None None
    {| world := (); calls := [CallResolve "GB"] |}.
Proof.
  exists Mock.destGB, {| world := (); calls := [CallResolve "GB"] |}, "", "", "", "".
  split_and!; run.
Qed.

Lemma empty_type_panics_witness :
  PostFormValue Mock.untyped "type" = ""
  ∧ Payment Mock.rhAB Mock.untyped Mock.start
    = (Stop Panicked,
       {| world := (); calls := [CallResolve "GB"; CallLoadAccount "GA"] |}).
Proof.
  split; [run|].
  apply (empty_type_panics (keys := Mock.keys) Mock.rhAB Mock.untyped Mock.start "GA" "GA" None None
           {| world := (); calls := [CallResolve "GB"] |} 7%N
           {| world := (); calls := [CallResolve "GB"; CallLoadAccount "GA"] |});
    [run|apply reaches_untyped|run].
Defined.

(** With a memo the same handler guards the assertion: a request with a type
    and a memo goes through. *)
Example Payment_with_memo_submitted :
  Payment Mock.rhAB (Mock.withMemo "text" "hello") Mock.start
  = (Continue "submitted",
     {| world := ();
        calls := [CallResolve "GB"; CallLoadAccount "GB"; CallLoadAccount "GA";
                  CallSubmitTransaction "envelope"] |}).
Proof. run. Qed.

Lemma partial_path_leg_not_rejected_witness :
  partialPair (PostFormValue Mock.partialLeg (fmt.Sprintf_path "asset_code" 0))
              (PostFormValue Mock.partialLeg (fmt.Sprintf_path "asset_issuer" 0))
  ∧ ∃ operation a1 a2 a3 path err,
      createPathPaymentOperation Mock.partialLeg Mock.destGB Mock.start
      = (Continue (Some operation, builderError operation), Mock.start)
      ∧ operation = b.PathPaymentBuilder [a1; a2; a3; b.Path path] err
      ∧ path !! 0
        = Some {| b.Code := PostFormValue Mock.partialLeg
                              (fmt.Sprintf_path "asset_code" 0);
                  b.Issuer := PostFormValue Mock.partialLeg
                                (fmt.Sprintf_path "asset_issuer" 0);
                  b.Native := false |}
      ∧ builderError operation ≠ Some PaymentMissingParamAsset.
Proof.
  assert (partialPair
            (PostFormValue Mock.partialLeg (fmt.Sprintf_path "asset_code" 0))
            (PostFormValue Mock.partialLeg (fmt.Sprintf_path "asset_issuer" 0)))
    as Hpartial.
  { right. split; [by vm_compute|run]. }
  split; [exact Hpartial|].
  apply (partial_path_leg_not_rejected Mock.partialLeg Mock.destGB Mock.start 0);
    [| | |exact Hpartial].
  - intros [[_ H]|[H _]]; by vm_compute in H.
  - intros [[_ H]|[H _]]; by vm_compute in H.
  - intros j Hj. assert (j = 0) as -> by lia. vm_compute. by eexists.
Defined.

(** The failing input of C3, run: the leg is handed to the builder as it is,
    and the handler submits the transaction. *)
Example partial_leg_submitted :
  createPathPaymentOperation Mock.partialLeg Mock.destGB Mock.start
  = (Continue
       (Some (b.PathPaymentBuilder
                [b.Destination "GB";
                 b.PathSend {| b.Code := ""; b.Issuer := ""; b.Native := true |} "";
                 b.PathDestination
                   {| b.Code := ""; b.Issuer := ""; b.Native := true |} "";
                 b.Path [{| b.Code := "USD"; b.Issuer := ""; b.Native := false |}]]
                None),
        None),
     Mock.start)
  ∧ Payment Mock.rhAB Mock.partialLeg Mock.start
    = (Continue "submitted",
       {| world := ();
          calls := [CallResolve "GB"; CallLoadAccount "GA";
                    CallSubmitTransaction "envelope"] |}).
Proof. split; run. Qed.

Lemma reaches_nativePayment_failing text :
  reachesAssembly (build := Mock.failing text) (keys := Mock.keys) Mock.rhAB
    Mock.nativePayment Mock.start "GA" "GA"
    (Some (b.PaymentBuilder [b.Destination "GB"; b.NativeAmount "10"] None)) None
    {| world := (); calls := [CallResolve "GB"; CallLoadAccount "GB"] |}.
Proof.
  exists Mock.destGB, {| world := (); calls := [CallResolve "GB"] |}, "", "", "", "".
  split_and!; reflexivity.
Qed.

Lemma builder_error_classified_witness :
  Payment (build := Mock.failing "amount: cannot parse amount: 1e") Mock.rhAB
    Mock.nativePayment Mock.start
  = (Stop (WroteError PaymentInvalidAmount),
     {| world := ();
        calls := [CallResolve "GB"; CallLoadAccount "GB"; CallLoadAccount "GA"] |}).
Proof.
  apply (proj1 (builder_error_classified
                  (build := Mock.failing "amount: cannot parse amount: 1e")
                  (keys := Mock.keys) Mock.rhAB)
           Mock.nativePayment Mock.start "GA" "GA" _ None _ 7%N _
           [b.SourceAccount "GA"; b.Sequence 8;
            b.Network "Test SDF Network ; September 2015";
            b.Operation (b.PaymentBuilder
                           [b.Destination "GB"; b.NativeAmount "10"] None)]
           "amount: cannot parse amount: 1e"
           (reaches_nativePayment_failing _));
    reflexivity.
Defined.

(** C4 as claimed fails: this error text contains the asset-code message,
    and the handler ends with [ServerError], not with [MalformedAssetCode]. *)
Lemma asset_code_message_not_by_substring :
  strings.Contains "payment: Asset code length is invalid"
                   "Asset code length is invalid" = true
  ∧ Payment (build := Mock.failing "payment: Asset code length is invalid")
      Mock.rhAB Mock.nativePayment Mock.start
    = (Stop (WroteError ServerError),
       {| world := ();
          calls := [CallResolve "GB"; CallLoadAccount "GB"; CallLoadAccount "GA"] |}).
Proof. split; run. Qed.

Lemma path_legs_stop_at_first_gap_witness :
  hasLeg Mock.gappedPath 3
  ∧ length (discoverPath Mock.gappedPath) = 2.
Proof.
  split; [vm_compute; by eexists|].
  apply (proj1 (proj2 (proj2 (path_legs_stop_at_first_gap (W := unit))))
           Mock.gappedPath).
  - vm_compute. by eexists.
  - vm_compute. by eexists.
  - vm_compute. by intros [? ?].
Defined.

(** The path of the request with a gap, run. *)
Example gapped_path_legs :
  discoverPath Mock.gappedPath
  = [{| b.Code := "EUR"; b.Issuer := "GE"; b.Native := false |};
     {| b.Code := ""; b.Issuer := ""; b.Native := true |}].
Proof. run. Qed.

Lemma memoDispatch_by_type_witness :
  memoDispatch "id" "42" Mock.start = (Continue (Some (b.MemoID 42)), Mock.start)
  ∧ Payment Mock.rhAB (Mock.withMemo "id" "4x2") Mock.start
    = (Stop (WroteError PaymentInvalidMemo),
       {| world := (); calls := [CallResolve "GB"; CallLoadAccount "GB"] |}).
Proof.
  pose proof (memoDispatch_by_type (keys := Mock.keys) Mock.rhAB)
    as (_ & _ & Hid & _ & _ & _ & _ & _ & Hstop).
  split.
  - apply (Hid 42%N Mock.start). done.
  - apply (Hstop (Mock.withMemo "id" "4x2") Mock.start "GA" "GA" Mock.destGB
             {| world := (); calls := [CallResolve "GB"] |}
             (Some (b.PaymentBuilder
                      [b.Destination "GB"; b.NativeAmount "10"] None))
             _ "id" "4x2" "id" "4x2"); run.
Defined.

Lemma source_sequence_incremented_witness :
  composeMutators Mock.rhAB "GA" 7
    (Some (b.PaymentBuilder [b.Destination "GB"; b.NativeAmount "10"] None)) None
    {| world := ();
       calls := [CallResolve "GB"; CallLoadAccount "GB"; CallLoadAccount "GA"] |}
  = (Continue [b.SourceAccount "GA"; b.Sequence 8;
               b.Network "Test SDF Network ; September 2015";
               b.Operation (b.PaymentBuilder
                              [b.Destination "GB"; b.NativeAmount "10"] None)],
     {| world := ();
        calls := [CallResolve "GB"; CallLoadAccount "GB"; CallLoadAccount "GA"] |}).
Proof.
  apply (proj2 (proj2 (source_sequence_incremented (keys := Mock.keys) Mock.rhAB Mock.nativePayment
                         Mock.start "GA" "GA" _ None _ reaches_nativePayment))
           {| SequenceNumber := "7" |} 7%N _ eq_refl).
  - split; [done|]. split; [reflexivity|]. by vm_compute.
  - reflexivity.
Defined.

(** C8 as claimed fails at the largest sequence number: the account's
    sequence number parses as [2^64 - 1], and the sequence of the
    transaction is 0, which is not [2^64]; the handler submits it. *)
Lemma sequence_wraps_at_max :
  loadSequence (keys := Mock.keys) Mock.rhMax "GA" Mock.start
  = (Continue 18446744073709551615%N,
     {| world := (); calls := [CallLoadAccount "GA"] |})
  ∧ composeMutators Mock.rhMax "GA" 18446744073709551615
      (Some (b.PaymentBuilder [b.Destination "GB"; b.NativeAmount "10"] None)) None
      Mock.start
    = (Continue [b.SourceAccount "GA"; b.Sequence 0;
                 b.Network "Test SDF Network ; September 2015";
                 b.Operation (b.PaymentBuilder
                                [b.Destination "GB"; b.NativeAmount "10"] None)],
       Mock.start)
  ∧ (0 ≠ 18446744073709551615 + 1)%N
  ∧ Payment Mock.rhMax Mock.nativePayment Mock.start
    = (Continue "submitted",
       {| world := ();
          calls := [CallResolve "GB"; CallLoadAccount "GB"; CallLoadAccount "GA";
                    CallSubmitTransaction "envelope"] |}).
Proof. split_and!; [run|run|done|run]. Qed.

Lemma memoOverride_reads_present_memo_witness :
  memoInvariant {| AccountId := "GB"; MemoType := Some "id"; Memo := Some "42" |}
  ∧ (memoOverride {| AccountId := "GB"; MemoType := Some "id"; Memo := Some "42" |}
       "" "" Mock.start).1 ≠ Stop Panicked.
Proof.
  assert (memoInvariant
            {| AccountId := "GB"; MemoType := Some "id"; Memo := Some "42" |})
    as Hinv by (split; intros _; by eexists).
  split; [exact Hinv|].
  exact (proj1 memoOverride_reads_present_memo _ "" "" Mock.start Hinv).
Defined.

Lemma issued_payment_operation_witness :
  createPaymentOperation Mock.rhAB Mock.issuedPayment Mock.destGB Mock.start
  = (Continue (Some (b.PaymentBuilder
                       [b.Destination "GB"; b.CreditAmount "USD" "GD" "10"] None),
               None),
     Mock.start).
Proof.
  etrans;
    [apply (proj1 (issued_payment_operation (keys := Mock.keys) Mock.rhAB)
              Mock.issuedPayment Mock.destGB Mock.start "GD");
       [by vm_compute|by vm_compute|run]
    |run].
Defined.

End Runs.

(** * The handler as a whole *)

Section Whole.

Context {build : b.Library} {keys : keypair.Library} {W SubmitResponse : Type}.
Variable rh : RequestHandler W SubmitResponse.

Ltac handler_unfold :=
  unfold bind, ret, writeError, panic, call in *.

(** ** The blocks, case by case *)

Lemma resolveDestination_cases r (st : State W) :
  let source := PostFormValue r "source" in
  let destination := PostFormValue r "destination" in
  let answer := Resolve (AddressResolver rh) destination (world st) in
  resolveDestination rh r st
  = match keypair.Parse source with
    | Err _ => (Stop (WroteError PaymentInvalidSource), st)
    | Ok sourceKeypair =>
        (match answer.1 with
         | Err _ => Stop (WroteError PaymentCannotResolveDestination)
         | Ok destinationObject =>
             match keypair.Parse (AccountId destinationObject) with
             | Err _ => Stop (WroteError PaymentInvalidDestination)
             | Ok _ => Continue (source, sourceKeypair, destinationObject)
             end
         end,
         {| world := answer.2; calls := calls st ++ [CallResolve destination] |})
    end.
Proof.
  unfold resolveDestination. destruct (keypair.Parse _) as [kp|e]; [|done].
  handler_unfold. destruct (Resolve _ _ _) as [[dest|e] w]; simpl; [|done].
  by destruct (keypair.Parse (AccountId dest)).
Qed.

(** The payment composer always returns, in one of four ways. *)
Lemma createPaymentOperation_cases r dest (st : State W) :
  let code := PostFormValue r "asset_code" in
  let issuer := PostFormValue r "asset_issuer" in
  let amount := PostFormValue r "amount" in
  (partialPair code issuer
   ∧ createPaymentOperation rh r dest st
     = (Continue (None, Some PaymentMissingParamAsset), st))
  ∨ (code ≠ "" ∧ issuer ≠ "" ∧ (∃ e, keypair.Parse issuer = Err e)
     ∧ createPaymentOperation rh r dest st
       = (Continue (None, Some PaymentInvalidIssuer), st))
  ∨ (code ≠ "" ∧ issuer ≠ ""
     ∧ ∃ issuerKeypair operation,
         keypair.Parse issuer = Ok issuerKeypair
         ∧ operation = b.Payment [b.Destination (AccountId dest);
                                  b.CreditAmount code
                                    (keypair.Address issuerKeypair) amount]
         ∧ createPaymentOperation rh r dest st
           = (Continue (Some operation, builderError operation), st))
  ∨ (code = "" ∧ issuer = ""
     ∧ ∃ operation,
         createPaymentOperation rh r dest st
         = (Continue (Some operation, builderError operation),
            {| world := (LoadAccount (Horizon rh) (AccountId dest) (world st)).2;
               calls := calls st ++ [CallLoadAccount (AccountId dest)] |})).
Proof.
  intros code issuer amount.
  destruct (pair_cases code issuer)
    as [(Ht & Hc & Hi)|[(Ht1 & Ht2 & Hc & Hi)|(Ht1 & Ht2 & Hp)]].
  - destruct (keypair.Parse issuer) as [kp|e] eqn:Hparse.
    + right; right; left. split_and!; [done..|].
      eexists kp, _. split_and!; [done..|].
      unfold createPaymentOperation. fold code issuer amount.
      rewrite Ht, Hparse. unfold builderError, b.Payment. simpl. by case_match.
    + right; left. split_and!; [done|done|by eexists|].
      unfold createPaymentOperation. fold code issuer. by rewrite Ht, Hparse.
  - right; right; right. split_and!; [done..|]. eexists.
    by apply createPaymentOperation_native.
  - left. split; [done|]. by apply partial_asset_pair_rejected.
Qed.

(** So does the path-payment composer, in one of two ways, and it leaves the
    state as it is. *)
Lemma createPathPaymentOperation_cases r dest (st : State W) :
  createPathPaymentOperation r dest st
  = (Continue (None, Some PaymentMissingParamAsset), st)
  ∨ ∃ operation muts err,
      operation = b.PathPaymentBuilder muts err
      ∧ createPathPaymentOperation r dest st
        = (Continue (Some operation, builderError operation), st).
Proof.
  destruct (decide (partialPair (PostFormValue r "send_asset_code")
                                (PostFormValue r "send_asset_issuer")))
    as [Hsend|Hsend].
  { left. by apply partial_send_pair_rejected. }
  destruct (decide (partialPair (PostFormValue r "destination_asset_code")
                                (PostFormValue r "destination_asset_issuer")))
    as [Hdest|Hdest].
  { left. by apply partial_destination_pair_rejected. }
  right. eexists _, _, _. split; [|by apply createPathPaymentOperation_whole_pairs].
  reflexivity.
Qed.

(** [chooseOperation] hands the composer's operation on when there is no
    error response, and ends the handler with the error response otherwise. *)
Lemma chooseOperation_payment r dest (st : State W) :
  PostFormValue r "type" = "payment" →
  chooseOperation rh r dest st
  = match createPaymentOperation rh r dest st with
    | (Continue (operationBuilder, None), st') => (Continue operationBuilder, st')
    | (Continue (_, Some e), st') => (Stop (WroteError e), st')
    | (Stop x, st') => (Stop x, st')
    end.
Proof.
  intros Htype. unfold chooseOperation. rewrite Htype. simpl. unfold bind.
  destruct (createPaymentOperation rh r dest st) as [[[op [e|]]|x] st']; done.
Qed.

Lemma chooseOperation_path_payment r dest (st : State W) :
  PostFormValue r "type" = "path_payment" →
  chooseOperation rh r dest st
  = match createPathPaymentOperation r dest st with
    | (Continue (operationBuilder, None), st') => (Continue operationBuilder, st')
    | (Continue (_, Some e), st') => (Stop (WroteError e), st')
    | (Stop x, st') => (Stop x, st')
    end.
Proof.
  intros Htype. unfold chooseOperation. rewrite Htype. simpl. unfold bind.
  destruct (createPathPaymentOperation r dest st) as [[[op [e|]]|x] st']; done.
Qed.

Lemma chooseOperation_other_type r dest (st : State W) :
  PostFormValue r "type" ≠ "" →
  PostFormValue r "type" ≠ "payment" →
  PostFormValue r "type" ≠ "path_payment" →
  chooseOperation rh r dest st = (Stop (WroteError PaymentInvalidType), st).
Proof.
  intros H1 H2 H3. unfold chooseOperation.
  by rewrite !bool_decide_eq_false_2 by done.
Qed.

Lemma builderError_None o : builderError o = None ↔ b.Err o = None.
Proof. unfold builderError. by destruct (b.Err o). Qed.

Lemma builderError_Some o e : builderError o = Some e → e = ServerError ∧ is_Some (b.Err o).
Proof. unfold builderError. destruct (b.Err o); [|done]. intros [= <-]. eauto. Qed.

(** What [chooseOperation] can end with, and what it does to the state. *)
Lemma chooseOperation_inv r dest (st st' : State W) x :
  chooseOperation rh r dest st = (x, st') →
  (st' = st
   ∨ (PostFormValue r "type" = "payment"
      ∧ PostFormValue r "asset_code" = "" ∧ PostFormValue r "asset_issuer" = ""
      ∧ st' = {| world := (LoadAccount (Horizon rh) (AccountId dest) (world st)).2;
                 calls := calls st ++ [CallLoadAccount (AccountId dest)] |}))
  ∧ match x with
    | Continue None => PostFormValue r "type" = ""
    | Continue (Some o) =>
        b.Err o = None
        ∧ (PostFormValue r "type" = "payment"
           ∨ PostFormValue r "type" = "path_payment")
    | Stop (WroteError e) =>
        e = PaymentInvalidType ∨ e = PaymentInvalidIssuer
        ∨ e = PaymentMissingParamAsset ∨ e = ServerError
    | Stop Panicked => False
    end.
Proof.
  destruct (decide (PostFormValue r "type" = "")) as [Hempty|Hempty].
  { rewrite chooseOperation_empty_type by done. intros [= <- <-]. auto. }
  destruct (decide (PostFormValue r "type" = "payment")) as [Hpay|Hpay].
  { rewrite chooseOperation_payment by done.
    destruct (createPaymentOperation_cases r dest st)
      as [(_ & ->)|[(_ & _ & _ & ->)|[(_ & _ & kp & o & _ & _ & ->)
          |(Hc & Hi & o & ->)]]].
    - intros [= <- <-]. auto.
    - intros [= <- <-]. auto.
    - destruct (builderError o) as [e|] eqn:He; intros [= <- <-].
      + apply builderError_Some in He as [-> _]. auto.
      + apply builderError_None in He. auto.
    - destruct (builderError o) as [e|] eqn:He; intros [= <- <-].
      + apply builderError_Some in He as [-> _]. split; [right|]; auto.
      + apply builderError_None in He. split; [right|]; auto. }
  destruct (decide (PostFormValue r "type" = "path_payment")) as [Hpath|Hpath].
  { rewrite chooseOperation_path_payment by done.
    destruct (createPathPaymentOperation_cases r dest st)
      as [->|(o & muts & err & _ & ->)].
    - intros [= <- <-]. auto.
    - destruct (builderError o) as [e|] eqn:He; intros [= <- <-].
      + apply builderError_Some in He as [-> _]. auto.
      + apply builderError_None in He. auto. }
  rewrite chooseOperation_other_type by done. intros [= <- <-]. auto.
Qed.

Lemma memoParams_inv r (st st' : State W) x :
  memoParams r st = (x, st') →
  st' = st
  ∧ (x = Stop (WroteError PaymentMissingParamMemo)
     ∨ x = Continue (PostFormValue r "memo_type", PostFormValue r "memo")).
Proof.
  unfold memoParams. case_match; handler_unfold; intros [= <- <-]; auto.
Qed.

Lemma memoOverride_inv d memoType memo (st st' : State W) x :
  memoOverride d memoType memo st = (x, st') →
  st' = st
  ∧ match x with
    | Stop Panicked => is_Some (MemoType d) ∧ Memo d = None ∧ memoType = ""
    | Stop (WroteError e) => e = PaymentCannotUseMemo
    | Continue _ => True
    end.
Proof.
  unfold memoOverride. destruct (MemoType d) as [t|] eqn:Ht.
  - case_bool_decide as Hmt; handler_unfold.
    + by intros [= <- <-].
    + destruct (Memo d); intros [= <- <-]; eauto.
  - handler_unfold. by intros [= <- <-].
Qed.

Lemma memoDispatch_inv memoType memo (st st' : State W) x :
  memoDispatch memoType memo st = (x, st') →
  st' = st
  ∧ match x with
    | Stop Panicked => False
    | Stop (WroteError e) => e = PaymentInvalidMemo
    | Continue None => memoType = ""
    | Continue (Some _) => memoType ≠ ""
    end.
Proof.
  unfold memoDispatch. handler_unfold.
  case_bool_decide as H1; [by intros [= <- <-]|].
  case_bool_decide as H2.
  { destruct (strconv.ParseUint memo); by intros [= <- <-]. }
  case_bool_decide as H3; [by intros [= <- <-]|].
  case_bool_decide as H4; [|by intros [= <- <-]].
  destruct (hex.DecodeString memo); [|by intros [= <- <-]].
  case_bool_decide; by intros [= <- <-].
Qed.

Lemma composeMutators_inv source n op memoMutator (st st' : State W) x :
  composeMutators rh source n op memoMutator st = (x, st') →
  st' = st
  ∧ match x with
    | Stop Panicked => op = None
    | Stop (WroteError _) => False
    | Continue mutators =>
        ∃ operation,
          op = Some operation
          ∧ mutators
            = [b.SourceAccount source;
               b.Sequence ((n + 1) mod 2 ^ 64)%N;
               b.Network (NetworkPassphrase (config rh));
               b.Operation operation]
              ++ match memoMutator with
                 | Some memo => [b.Memo memo]
                 | None => []
                 end
    end.
Proof.
  unfold composeMutators, uint64_add.
  destruct op as [o|], memoMutator as [m|]; handler_unfold;
    intros [= <- <-]; eauto.
Qed.

Lemma submit_cases source mutators (st : State W) :
  submit rh source mutators st
  = match b.TransactionErr mutators with
    | Some text => (Stop (WroteError (builderErrorResponse text)), st)
    | None =>
        match b.SignBase64 mutators source with
        | Err _ => (Stop (WroteError ServerError), st)
        | Ok txeB64 =>
            let answer := SubmitTransaction (Horizon rh) txeB64 (world st) in
            (match answer.1 with
             | Err _ => Stop (WroteError ServerError)
             | Ok submitResponse => Continue submitResponse
             end,
             {| world := answer.2;
                calls := calls st ++ [CallSubmitTransaction txeB64] |})
        end
    end.
Proof.
  unfold submit. destruct (b.TransactionErr _); [done|].
  destruct (b.SignBase64 _ _) as [txe|e]; [|done].
  handler_unfold. by destruct (SubmitTransaction _ _ _) as [[resp|e] w].
Qed.

(** ** Before and after the source account is loaded *)

(** What is known of a request that gets as far as loading the source
    account. *)
Lemma reachesAssembly_inv r st source kp op memoMutator st2 :
  reachesAssembly rh r st source kp op memoMutator st2 →
  source = PostFormValue r "source"
  ∧ keypair.Parse source = Ok kp
  ∧ (∃ l a, calls st2 = calls st ++ CallResolve (PostFormValue r "destination") :: l
            ∧ (l = [] ∨ l = [CallLoadAccount a]))
  ∧ match op with
    | None => PostFormValue r "type" = ""
    | Some o =>
        b.Err o = None
        ∧ (PostFormValue r "type" = "payment"
           ∨ PostFormValue r "type" = "path_payment")
    end.
Proof.
  intros (dest & st1 & userType & userMemo & memoType & memo
          & Hres & Hop & _ & _ & _).
  rewrite resolveDestination_cases in Hres. cbv zeta in Hres.
  destruct (keypair.Parse (PostFormValue r "source")) as [kp'|e] eqn:Hsrc; [|done].
  injection Hres as Hx Hst1.
  destruct (Resolve _ _ _).1 as [dest'|e]; [|done].
  destruct (keypair.Parse (AccountId dest')); [|done].
  injection Hx as <- <- <-.
  apply chooseOperation_inv in Hop as [Hst2 Hx].
  split_and!; [done|done| |done].
  destruct Hst2 as [->|(_ & _ & _ & ->)]; rewrite <-Hst1; simpl.
  - exists [], "". auto.
  - exists [CallLoadAccount (AccountId dest')], (AccountId dest').
    rewrite <-app_assoc. auto.
Qed.

(** A run of the handler either gets as far as loading the source account,
    or stops before it, after at most the resolver's call and the lookup of
    the destination; it panics there only on a resolved destination with a
    memo type and no memo value. *)
Lemma Payment_inv r st x st' :
  Payment rh r st = (x, st') →
  (∃ source kp op memoMutator st2,
     reachesAssembly rh r st source kp op memoMutator st2
     ∧ assembly rh source kp op memoMutator st2 = (x, st'))
  ∨ (∃ e l a,
       x = Stop e
       ∧ calls st' = calls st ++ l
       ∧ l `prefix_of` [CallResolve (PostFormValue r "destination");
                        CallLoadAccount a]
       ∧ (e = Panicked →
          PostFormValue r "memo_type" = ""
          ∧ ∃ dest,
              (Resolve (AddressResolver rh) (PostFormValue r "destination")
                 (world st)).1 = Ok dest
              ∧ is_Some (MemoType dest) ∧ Memo dest = None)).
Proof.
  intros Hrun.
  destruct (resolveDestination rh r st) as [[[[source kp] dest]|e1] st1] eqn:Hres.
  2:{ right. unfold Payment, bind in Hrun. rewrite Hres in Hrun.
      injection Hrun as <- <-.
      rewrite resolveDestination_cases in Hres. cbv zeta in Hres.
      destruct (keypair.Parse _); injection Hres as He <-.
      - exists e1, [CallResolve (PostFormValue r "destination")], "".
        split_and!; [done|done|by eexists [_]|].
        intros ->. destruct (Resolve _ _ _).1; [|done]. by case_match.
      - exists e1, [], "". rewrite app_nil_r.
        split_and!; [done|done|by eexists|]. by intros ->. }
  assert (calls st1 = calls st ++ [CallResolve (PostFormValue r "destination")]
          ∧ (Resolve (AddressResolver rh) (PostFormValue r "destination")
               (world st)).1 = Ok dest) as [Hst1 Hanswer].
  { rewrite resolveDestination_cases in Hres. cbv zeta in Hres.
    destruct (keypair.Parse _); [|done]. injection Hres as Hx <-.
    split; [done|]. destruct (Resolve _ _ _).1 as [dest'|]; [|done].
    destruct (keypair.Parse (AccountId dest')); [|done]. by injection Hx as _ _ ->. }
  destruct (chooseOperation rh r dest st1) as [[op|e2] st2] eqn:Hop.
  2:{ right. unfold Payment in Hrun. unfold bind at 1 in Hrun. rewrite Hres in Hrun.
      unfold bind at 1 in Hrun. rewrite Hop in Hrun. injection Hrun as <- <-.
      apply chooseOperation_inv in Hop as [Hst2 He].
      destruct Hst2 as [->|(_ & _ & _ & ->)]; simpl; rewrite Hst1.
      - exists e2, [CallResolve (PostFormValue r "destination")], "".
        split_and!; [done|done|by eexists [_]|]. by intros ->.
      - exists e2, [CallResolve (PostFormValue r "destination");
                    CallLoadAccount (AccountId dest)], (AccountId dest).
        rewrite <-app_assoc. split_and!; [done|done|done|]. by intros ->. }
  assert (∃ l a, calls st2 = calls st ++ l
                 ∧ l `prefix_of` [CallResolve (PostFormValue r "destination");
                                  CallLoadAccount a]) as (l & a & Hst2 & Hl).
  { pose proof Hop as [Hst _]%chooseOperation_inv.
    destruct Hst as [->|(_ & _ & _ & ->)]; simpl; rewrite Hst1.
    - exists [CallResolve (PostFormValue r "destination")], "".
      split; [done|by eexists [_]].
    - exists [CallResolve (PostFormValue r "destination");
              CallLoadAccount (AccountId dest)], (AccountId dest).
      rewrite <-app_assoc. done. }
  destruct (memoParams r st2) as [[[userType userMemo]|e3] st2'] eqn:Hmemo.
  2:{ right. pose proof Hmemo as [-> _]%memoParams_inv.
      unfold Payment in Hrun. unfold bind at 1 in Hrun. rewrite Hres in Hrun.
      unfold bind at 1 in Hrun. rewrite Hop in Hrun.
      unfold bind at 1 in Hrun. rewrite Hmemo in Hrun. injection Hrun as <- <-.
      exists e3, l, a. split_and!; [done..|].
      intros ->. by apply memoParams_inv in Hmemo as [_ [?|?]]. }
  pose proof Hmemo as [-> Huser]%memoParams_inv.
  destruct Huser as [?|[= -> ->]]; [done|].
  rewrite (Payment_afterMemoParams rh _ _ _ _ _ _ _ _ _ _ Hres Hop Hmemo) in Hrun.
  unfold afterMemoParams in Hrun.
  destruct (memoOverride dest (PostFormValue r "memo_type")
              (PostFormValue r "memo") st2) as [[[memoType memo]|e4] st2'] eqn:Hover.
  2:{ right. pose proof Hover as [-> He]%memoOverride_inv.
      unfold bind at 1 in Hrun. rewrite Hover in Hrun. injection Hrun as <- <-.
      exists e4, l, a. split_and!; [done..|].
      intros ->. destruct He as (Hty & Hval & Hmt). eauto. }
  pose proof Hover as [-> _]%memoOverride_inv.
  unfold bind at 1 in Hrun. rewrite Hover in Hrun.
  destruct (memoDispatch memoType memo st2) as [[memoMutator|e5] st2'] eqn:Hdispatch.
  2:{ right. pose proof Hdispatch as [-> He]%memoDispatch_inv.
      unfold bind at 1 in Hrun. rewrite Hdispatch in Hrun. injection Hrun as <- <-.
      exists e5, l, a. split_and!; [done..|]. by intros ->. }
  pose proof Hdispatch as [-> _]%memoDispatch_inv.
  unfold bind at 1 in Hrun. rewrite Hdispatch in Hrun.
  left. exists source, kp, op, memoMutator, st2. split; [|exact Hrun].
  by exists dest, st1, (PostFormValue r "memo_type"), (PostFormValue r "memo"),
    memoType, memo.
Qed.

(** From the load of the source account on. *)
Lemma assembly_inv source kp op memoMutator (st2 st' : State W) x :
  assembly rh source kp op memoMutator st2 = (x, st') →
  let st3 := {| world := (LoadAccount (Horizon rh) (keypair.Address kp)
                            (world st2)).2;
                calls := calls st2 ++ [CallLoadAccount (keypair.Address kp)] |} in
  (st' = st3
   ∧ (x = Stop (WroteError PaymentSourceNotExist)
      ∨ x = Stop (WroteError ServerError)
      ∨ (x = Stop Panicked ∧ op = None)))
  ∨ ∃ n operation,
      loadSequence rh kp st2 = (Continue n, st3)
      ∧ op = Some operation
      ∧ submit rh source
          ([b.SourceAccount source;
            b.Sequence ((n + 1) mod 2 ^ 64)%N;
            b.Network (NetworkPassphrase (config rh));
            b.Operation operation]
           ++ match memoMutator with
              | Some memo => [b.Memo memo]
              | None => []
              end) st3
        = (x, st').
Proof.
  intros Hrun st3. unfold assembly in Hrun.
  pose proof (loadSequence_cases rh kp st2) as Hload. cbv zeta in Hload.
  fold st3 in Hload. unfold bind at 1 in Hrun. rewrite Hload in Hrun.
  destruct (LoadAccount _ _ _).1 as [a|e].
  2:{ injection Hrun as <- <-. left. auto. }
  destruct (strconv.ParseUint _) as [n|].
  2:{ injection Hrun as <- <-. left. auto. }
  destruct (composeMutators rh source n op memoMutator st3)
    as [[mutators|e] st3'] eqn:Hmut.
  - pose proof Hmut as [-> (operation & -> & ->)]%composeMutators_inv.
    unfold bind at 1 in Hrun. rewrite Hmut in Hrun.
    right. by exists n, operation.
  - pose proof Hmut as [-> He]%composeMutators_inv.
    unfold bind at 1 in Hrun. rewrite Hmut in Hrun. injection Hrun as <- <-.
    left. destruct e as [e|]; [done|]. auto.
Qed.

(** ** Validation before the operation *)

(** X3: the source key is checked before any collaborator is called; a
    resolver's error ends the handler with [CannotResolveDestination], and
    an account id the resolver returns that does not parse as a key with
    [InvalidDestination], both after the resolver's call only. *)
Theorem source_and_destination_checked_first :
  (∀ r (st : State W) e,
     keypair.Parse (PostFormValue r "source") = Err e →
     Payment rh r st = (Stop (WroteError PaymentInvalidSource), st))
  ∧ (∀ r (st : State W) kp,
       keypair.Parse (PostFormValue r "source") = Ok kp →
       let destination := PostFormValue r "destination" in
       let answer := Resolve (AddressResolver rh) destination (world st) in
       let st1 := {| world := answer.2;
                     calls := calls st ++ [CallResolve destination] |} in
       (∀ e, answer.1 = Err e →
          Payment rh r st = (Stop (WroteError PaymentCannotResolveDestination), st1))
       ∧ (∀ dest e, answer.1 = Ok dest →
            keypair.Parse (AccountId dest) = Err e →
            Payment rh r st = (Stop (WroteError PaymentInvalidDestination), st1))).
Proof.
  split.
  - intros r st e Hsrc. unfold Payment. unfold bind at 1.
    rewrite resolveDestination_cases. cbv zeta. by rewrite Hsrc.
  - intros r st kp Hsrc destination answer st1. split.
    + intros e He. unfold Payment. unfold bind at 1.
      rewrite resolveDestination_cases. cbv zeta. fold destination answer.
      by rewrite Hsrc, He.
    + intros dest e Hdest He. unfold Payment. unfold bind at 1.
      rewrite resolveDestination_cases. cbv zeta. fold destination answer.
      by rewrite Hsrc, Hdest, He.
Qed.

(** X4: choosing the operation calls the ledger client only for a payment
    with neither asset code nor asset issuer, and then once, for the
    destination account; for every other request (an issued-asset payment, a
    path payment, no type, an unknown type) it leaves the state as it is.  A
    type other than the three known ones ends the handler with
    [InvalidType]. *)
Theorem destination_lookup_only_for_native_payment r dest (st : State W) :
  let native := PostFormValue r "type" = "payment"
                ∧ PostFormValue r "asset_code" = ""
                ∧ PostFormValue r "asset_issuer" = "" in
  (native →
     (chooseOperation rh r dest st).2
     = {| world := (LoadAccount (Horizon rh) (AccountId dest) (world st)).2;
          calls := calls st ++ [CallLoadAccount (AccountId dest)] |})
  ∧ (¬ native → (chooseOperation rh r dest st).2 = st)
  ∧ (PostFormValue r "type" ≠ "" → PostFormValue r "type" ≠ "payment" →
     PostFormValue r "type" ≠ "path_payment" →
     chooseOperation rh r dest st = (Stop (WroteError PaymentInvalidType), st)).
Proof.
  intros native. split_and!.
  - intros (Htype & Hcode & Hissuer). rewrite chooseOperation_payment by done.
    pose proof (createPaymentOperation_native rh r dest st Hcode Hissuer) as Hcreate.
    cbv zeta in Hcreate. rewrite Hcreate. by destruct (builderError _).
  - intros Hnative.
    destruct (chooseOperation rh r dest st) as [x st'] eqn:Hop.
    apply chooseOperation_inv in Hop as [[->|(? & ? & ? & _)] _]; [done|].
    by destruct Hnative.
  - apply chooseOperation_other_type.
Qed.

(** X1: a payment whose asset pair is given in part, and a path payment
    whose send pair or destination pair is, end with [MissingParamAsset]
    once the destination is resolved, and no call is made after the
    resolver's. *)
Theorem partial_pair_ends_with_MissingParamAsset r st source kp dest st1 :
  resolveDestination rh r st = (Continue (source, kp, dest), st1) →
  (PostFormValue r "type" = "payment"
   ∧ partialPair (PostFormValue r "asset_code") (PostFormValue r "asset_issuer"))
  ∨ (PostFormValue r "type" = "path_payment"
     ∧ (partialPair (PostFormValue r "send_asset_code")
                    (PostFormValue r "send_asset_issuer")
        ∨ partialPair (PostFormValue r "destination_asset_code")
                      (PostFormValue r "destination_asset_issuer"))) →
  Payment rh r st = (Stop (WroteError PaymentMissingParamAsset), st1).
Proof.
  intros Hres Hpartial.
  assert (chooseOperation rh r dest st1
          = (Stop (WroteError PaymentMissingParamAsset), st1)) as Hop.
  { destruct Hpartial as [[Htype Hpair]|[Htype Hpair]].
    - rewrite chooseOperation_payment by done.
      by rewrite partial_asset_pair_rejected.
    - rewrite chooseOperation_path_payment by done.
      destruct (decide (partialPair (PostFormValue r "send_asset_code")
                                    (PostFormValue r "send_asset_issuer")))
        as [Hsend|Hsend].
      + by rewrite partial_send_pair_rejected.
      + destruct Hpair as [?|Hdest]; [done|].
        by rewrite partial_destination_pair_rejected. }
  unfold Payment. unfold bind at 1. rewrite Hres.
  unfold bind at 1. by rewrite Hop.
Qed.

(** X2: a payment with an asset code and an asset issuer that does not parse
    as a key ends with [InvalidIssuer], with no call after the resolver's.
    The path-payment composer parses no issuer: its error response is never
    [InvalidIssuer]. *)
Theorem unparsable_issuer_ends_with_InvalidIssuer :
  (∀ r st source kp dest st1 e,
     resolveDestination rh r st = (Continue (source, kp, dest), st1) →
     PostFormValue r "type" = "payment" →
     PostFormValue r "asset_code" ≠ "" →
     PostFormValue r "asset_issuer" ≠ "" →
     keypair.Parse (PostFormValue r "asset_issuer") = Err e →
     Payment rh r st = (Stop (WroteError PaymentInvalidIssuer), st1))
  ∧ (∀ r dest (st st' : State W) op,
       createPathPaymentOperation r dest st
       ≠ (Continue (op, Some PaymentInvalidIssuer), st')).
Proof.
  split.
  - intros r st source kp dest st1 e Hres Htype Hcode Hissuer Hparse.
    assert (chooseOperation rh r dest st1
            = (Stop (WroteError PaymentInvalidIssuer), st1)) as Hop.
    { rewrite chooseOperation_payment by done.
      destruct (createPaymentOperation_cases r dest st1)
        as [([[? ?]|[? ?]] & _)|[(_ & _ & _ & ->)
            |[(_ & _ & kp' & o & Hok & _)|(? & _)]]]; try done.
      by rewrite Hparse in Hok. }
    unfold Payment. unfold bind at 1. rewrite Hres.
    unfold bind at 1. by rewrite Hop.
  - intros r dest st st' op.
    destruct (createPathPaymentOperation_cases r dest st)
      as [->|(o & muts & err & _ & ->)]; [done|].
    intros [= _ He _]. by apply builderError_Some in He as [? _].
Qed.

(** X10: an operation builder that ends with an error makes the handler end
    with [ServerError], whatever the error's text: the texts the handler
    tells apart are those of the transaction builder only. *)
Theorem operation_builder_error_ends_with_ServerError
    r st source kp dest st1 o errorResponse st2 text :
  resolveDestination rh r st = (Continue (source, kp, dest), st1) →
  (PostFormValue r "type" = "payment"
   ∧ createPaymentOperation rh r dest st1
     = (Continue (Some o, errorResponse), st2))
  ∨ (PostFormValue r "type" = "path_payment"
     ∧ createPathPaymentOperation r dest st1
       = (Continue (Some o, errorResponse), st2)) →
  b.Err o = Some text →
  errorResponse = Some ServerError
  ∧ Payment rh r st = (Stop (WroteError ServerError), st2).
Proof.
  intros Hres Hcreate Herr.
  assert (builderError o = Some ServerError) as Hbuilder.
  { unfold builderError. by rewrite Herr. }
  assert (errorResponse = Some ServerError) as ->.
  { destruct Hcreate as [[_ Hcreate]|[_ Hcreate]].
    - destruct (createPaymentOperation_cases r dest st1)
        as [(_ & Heq)|[(_ & _ & _ & Heq)|[(_ & _ & kp' & o' & _ & _ & Heq)
            |(_ & _ & o' & Heq)]]];
        rewrite Heq in Hcreate; try done; by injection Hcreate as -> <- _.
    - destruct (createPathPaymentOperation_cases r dest st1)
        as [Heq|(o' & muts & err & _ & Heq)];
        rewrite Heq in Hcreate; try done; by injection Hcreate as -> <- _. }
  split; [done|].
  assert (chooseOperation rh r dest st1 = (Stop (WroteError ServerError), st2))
    as Hop.
  { destruct Hcreate as [[Htype Hcreate]|[Htype Hcreate]].
    - rewrite chooseOperation_payment by done. by rewrite Hcreate.
    - rewrite chooseOperation_path_payment by done. by rewrite Hcreate. }
  unfold Payment. unfold bind at 1. rewrite Hres.
  unfold bind at 1. by rewrite Hop.
Qed.

(** X5: once the operation is chosen, a request with a memo type and no
    memo, or a memo and no memo type, ends with [MissingParamMemo], whatever
    the resolved destination carries: the check comes before the one of the
    resolver's memo. *)
Theorem memo_fields_given_together r st source kp dest st1 op st2 :
  resolveDestination rh r st = (Continue (source, kp, dest), st1) →
  chooseOperation rh r dest st1 = (Continue op, st2) →
  (PostFormValue r "memo_type" = "" ∧ PostFormValue r "memo" ≠ "")
  ∨ (PostFormValue r "memo_type" ≠ "" ∧ PostFormValue r "memo" = "") →
  Payment rh r st = (Stop (WroteError PaymentMissingParamMemo), st2).
Proof.
  intros Hres Hop Hmemo.
  assert (memoParams r st2 = (Stop (WroteError PaymentMissingParamMemo), st2))
    as Hparams.
  { unfold memoParams.
    destruct Hmemo as [[Ht Hm]|[Ht Hm]]; rewrite ?Ht, ?Hm;
      repeat case_bool_decide; simpl; done. }
  unfold Payment. unfold bind at 1. rewrite Hres.
  unfold bind at 1. rewrite Hop. unfold bind at 1. by rewrite Hparams.
Qed.

(** ** The resolver's memo *)

(** C5, as the code has it: for a request that passes the checks before the
    memo-override block (its memo type and memo are both given or both
    left out) and whose resolved destination carries a memo type, a memo
    type in the request ends the handler with [CannotUseMemo].  Without
    one, the resolver's memo type and value are the ones dispatched: an
    error of the dispatch ends the handler, and otherwise the transaction
    is built from, and signed over, the mutators that end with the memo made
    of the resolver's type and value ([MemoID], [MemoText] or [MemoHash]).
    The memo handed on by the block is either the request's (the resolver
    gave none) or the resolver's (the request gave none). *)
Theorem resolver_memo_excludes_request_memo
    r st source kp dest st1 op st2 memoType memo destMemoType :
  resolveDestination rh r st = (Continue (source, kp, dest), st1) →
  chooseOperation rh r dest st1 = (Continue op, st2) →
  memoParams r st2 = (Continue (memoType, memo), st2) →
  MemoType dest = Some destMemoType →
  (memoType ≠ "" →
     Payment rh r st = (Stop (WroteError PaymentCannotUseMemo), st2))
  ∧ (memoType = "" → ∀ destMemo, Memo dest = Some destMemo →
       memo = ""
       ∧ (∀ x, memoDispatch destMemoType destMemo st2 = (Stop x, st2) →
            Payment rh r st = (Stop x, st2))
       ∧ (∀ memoMutator n st3 operation,
            memoDispatch destMemoType destMemo st2 = (Continue memoMutator, st2) →
            loadSequence rh kp st2 = (Continue n, st3) →
            op = Some operation →
            let mutators :=
              [b.SourceAccount source;
               b.Sequence ((n + 1) mod 2 ^ 64)%N;
               b.Network (NetworkPassphrase (config rh));
               b.Operation operation]
              ++ match memoMutator with
                 | Some m => [b.Memo m]
                 | None => []
                 end in
            Payment rh r st
            = match b.TransactionErr mutators with
              | Some text => (Stop (WroteError (builderErrorResponse text)), st3)
              | None =>
                  match b.SignBase64 mutators source with
                  | Err _ => (Stop (WroteError ServerError), st3)
                  | Ok txe =>
                      let answer :=
                        SubmitTransaction (Horizon rh) txe (world st3) in
                      (match answer.1 with
                       | Err _ => Stop (WroteError ServerError)
                       | Ok submitResponse => Continue submitResponse
                       end,
                       {| world := answer.2;
                          calls := calls st3 ++ [CallSubmitTransaction txe] |})
                  end
              end)
       ∧ (destMemoType = "id" → ∀ k, isUint64 destMemo k →
            memoDispatch destMemoType destMemo st2
            = (Continue (Some (b.MemoID k)), st2))
       ∧ (destMemoType = "text" →
            memoDispatch destMemoType destMemo st2
            = (Continue (Some (b.MemoText destMemo)), st2))
       ∧ (destMemoType = "hash" → ∀ bytes,
            hex.DecodeString destMemo = Some bytes → length bytes = 32 →
            memoDispatch destMemoType destMemo st2
            = (Continue (Some (b.MemoHash bytes)), st2)))
  ∧ (∀ d userType userMemo (s s' : State W) finalType finalMemo,
       memoOverride d userType userMemo s = (Continue (finalType, finalMemo), s') →
       (MemoType d = None ∧ finalType = userType ∧ finalMemo = userMemo)
       ∨ (userType = "" ∧ MemoType d = Some finalType ∧ Memo d = Some finalMemo)).
Proof.
  intros Hres Hop Hmemo Hdest.
  rewrite (Payment_afterMemoParams rh _ _ _ _ _ _ _ _ _ _ Hres Hop Hmemo).
  unfold afterMemoParams. split; [|split].
  - intros Hne. unfold bind at 1. unfold memoOverride. rewrite Hdest.
    by rewrite bool_decide_eq_true_2.
  - intros -> destMemo HdestMemo.
    assert (memoOverride dest "" memo st2
            = (Continue (destMemoType, destMemo), st2)) as Hover.
    { unfold memoOverride. by rewrite Hdest, HdestMemo. }
    split_and!.
    + by apply memoParams_Continue in Hmemo as (_ & _ & [-> _]).
    + intros x Hstop. unfold bind at 1. rewrite Hover.
      unfold bind at 1. by rewrite Hstop.
    + intros memoMutator n st3 operation Hdispatch Hload ->. cbv zeta.
      set (mutators := [_; _; _; _] ++ _).
      unfold bind at 1. rewrite Hover.
      unfold bind at 1. rewrite Hdispatch.
      unfold bind at 1. rewrite Hload.
      assert (composeMutators rh source n (Some operation) memoMutator st3
              = (Continue mutators, st3)) as Hmut.
      { unfold composeMutators, mutators, uint64_add. by destruct memoMutator. }
      unfold bind at 1. rewrite Hmut. apply submit_cases.
    + intros -> k Hk. apply ParseUint_spec in Hk.
      unfold memoDispatch. simpl. by rewrite Hk.
    + by intros ->.
    + intros -> bytes Hdec Hlen. unfold memoDispatch. simpl. rewrite Hdec.
      rewrite bool_decide_eq_false_2 by (by intros ?).
      by rewrite take_ge by lia.
  - intros d userType userMemo s s' finalType finalMemo. unfold memoOverride.
    destruct (MemoType d) as [t|]; [|handler_unfold; intros [= <- <- _]; by left].
    case_bool_decide as Hmt; [done|].
    destruct (Memo d) as [m|]; [|done].
    handler_unfold. intros [= <- <- _]. by right.
Qed.

(** ** Runs of the handler *)

(** The state after the operation is chosen. *)
Lemma chooseOperation_calls r dest (st st' : State W) x :
  chooseOperation rh r dest st = (x, st') →
  calls st' = calls st ++ destinationLookup r dest.
Proof.
  intros Hop. unfold destinationLookup. case_bool_decide as Hnative.
  - destruct Hnative as (Htype & Hcode & Hissuer).
    rewrite chooseOperation_payment in Hop by done.
    pose proof (createPaymentOperation_native rh r dest st Hcode Hissuer) as Hcreate.
    cbv zeta in Hcreate. rewrite Hcreate in Hop.
    destruct (builderError _); by injection Hop as _ <-.
  - apply chooseOperation_inv in Hop as [[->|(? & ? & ? & _)] _].
    + by rewrite app_nil_r.
    + by destruct Hnative.
Qed.


(** X7: when the handler returns a response, the type was ["payment"] or
    ["path_payment"], the source parsed as a key, the ledger client gave the
    source account a sequence number [n] that is the text of an unsigned
    64-bit number, the operation and the transaction were built without
    error from the form's source, the sequence [(n + 1) mod 2^64], the
    configured network, the operation and at most one memo, the envelope
    signed by the form's source was submitted in the last call, and the
    response is the submission's answer, unchanged. *)
Theorem Payment_response_is_submit_answer r st resp st' :
  Payment rh r st = (Continue resp, st') →
  ∃ kp w0 account n operation memo txe w,
    let source := PostFormValue r "source" in
    let mutators :=
      [b.SourceAccount source;
       b.Sequence ((n + 1) mod 2 ^ 64)%N;
       b.Network (NetworkPassphrase (config rh));
       b.Operation operation] ++ memo in
    keypair.Parse source = Ok kp
    ∧ (PostFormValue r "type" = "payment"
       ∨ PostFormValue r "type" = "path_payment")
    ∧ LoadAccount (Horizon rh) (keypair.Address kp) w0 = (Ok account, w)
    ∧ isUint64 (SequenceNumber account) n
    ∧ b.Err operation = None
    ∧ (memo = [] ∨ ∃ m, memo = [b.Memo m])
    ∧ b.TransactionErr mutators = None
    ∧ b.SignBase64 mutators source = Ok txe
    ∧ SubmitTransaction (Horizon rh) txe w = (Ok resp, world st')
    ∧ last (calls st') = Some (CallSubmitTransaction txe).
Proof.
  intros [(source & kp & op & memoMutator & st2 & Hreach & Hrun)
         |(e & l & a & [=] & _)]%Payment_inv.
  apply reachesAssembly_inv in Hreach as (-> & Hsrc & _ & Hop).
  apply assembly_inv in Hrun. cbv zeta in Hrun.
  destruct Hrun as [(_ & [?|[?|[? _]]])
                   |(n & operation & Hload & -> & Hsubmit)]; [done..|].
  destruct Hop as [Herr Htype].
  rewrite loadSequence_cases in Hload. cbv zeta in Hload.
  destruct (LoadAccount (Horizon rh) (keypair.Address kp) (world st2))
    as [[account|?] w] eqn:Haccount; simpl in Hload; [|done].
  destruct (strconv.ParseUint (SequenceNumber account)) as [n'|] eqn:Hn; [|done].
  injection Hload as ->.
  rewrite submit_cases in Hsubmit.
  destruct (b.TransactionErr _) eqn:Htx; [done|].
  destruct (b.SignBase64 _ _) as [txe|] eqn:Hsign; [|done].
  cbv zeta in Hsubmit.
  destruct (SubmitTransaction (Horizon rh) txe _) as [[resp'|?] w'] eqn:Hanswer;
    simpl in Hsubmit; [|done].
  injection Hsubmit as -> <-.
  exists kp, (world st2), account, n, operation,
    (match memoMutator with Some memo => [b.Memo memo] | None => [] end), txe, w.
  cbv zeta. split_and!; try done.
  - by apply ParseUint_spec.
  - destruct memoMutator; eauto.
  - simpl. by rewrite last_snoc.
Qed.

(** X9: the handler panics in two cases only: on a request without a type
    (the assertion on the nil operation), and on a request without a memo
    type whose resolved destination has a memo type and no memo value (the
    nil memo is read).  Panics inside the collaborators are not part of the
    model. *)
Theorem Payment_panics_only r st st' :
  Payment rh r st = (Stop Panicked, st') →
  PostFormValue r "type" = ""
  ∨ (PostFormValue r "memo_type" = ""
     ∧ ∃ dest,
         (Resolve (AddressResolver rh) (PostFormValue r "destination")
            (world st)).1 = Ok dest
         ∧ is_Some (MemoType dest) ∧ Memo dest = None).
Proof.
  intros [(source & kp & op & memoMutator & st2 & Hreach & Hrun)
         |(e & l & a & [= <-] & _ & _ & Hpanic)]%Payment_inv.
  2:{ right. by apply Hpanic. }
  left. apply reachesAssembly_inv in Hreach as (_ & _ & _ & Hop).
  apply assembly_inv in Hrun. cbv zeta in Hrun.
  destruct Hrun as [(_ & [?|[?|[_ ->]]])|(n & operation & _ & _ & Hsubmit)];
    [done|done|done|].
  rewrite submit_cases in Hsubmit.
  destruct (b.TransactionErr _); [done|].
  destruct (b.SignBase64 _ _); [|done].
  cbv zeta in Hsubmit. by destruct (SubmitTransaction _ _ _).1.
Qed.

(** ** The hash memo *)

Lemma fromHexChar_lt c x : hex.fromHexChar c = Some x → (x < 16)%N.
Proof.
  unfold hex.fromHexChar. intros Hx.
  repeat match type of Hx with
         | context [(?a <=? ?b)%N] =>
             let H := fresh in destruct (N.leb_spec a b) as [H|H]; simpl in Hx
         end;
    simplify_eq; lia.
Qed.

Lemma DecodeString_is_Some n : ∀ s,
  String.length s ≤ n →
  is_Some (hex.DecodeString s) ↔ Nat.Even (String.length s) ∧ allHex s = true.
Proof.
  induction n as [n IH] using lt_wf_ind. intros [|a [|c s]] Hn.
  - split; [|by eexists]. intros _. split; [by exists 0|done].
  - split; [by intros [? ?]|]. intros [[k Hk] _]. simpl in Hk. lia.
  - simpl in Hn.
    assert (Nat.Even (String.length (String a (String c s)))
            ↔ Nat.Even (String.length s)) as ->.
    { simpl. split; intros [k Hk]; [exists (k - 1)|exists (S k)]; lia. }
    change (allHex (String a (String c s)))
      with (bool_decide (is_Some (hex.fromHexChar a))
            && (bool_decide (is_Some (hex.fromHexChar c)) && allHex s)).
    rewrite !andb_true_iff, !bool_decide_eq_true.
    pose proof (IH (String.length s) ltac:(lia) s (le_n _)) as IHs.
    simpl. destruct (hex.fromHexChar a) as [x|].
    2:{ split; [by intros [? ?]|by intros (_ & [? ?] & _)]. }
    destruct (hex.fromHexChar c) as [y|].
    2:{ split; [by intros [? ?]|by intros (_ & _ & [? ?] & _)]. }
    destruct (hex.DecodeString s) as [l|].
    + split; [|by eexists]. intros _.
      destruct (proj1 IHs) as [He Hh]; [by eexists|]. eauto.
    + split; [by intros [? ?]|]. intros (He & _ & _ & Hh).
      by destruct (proj2 IHs (conj He Hh)).
Qed.

Lemma DecodeString_bytes n : ∀ s l,
  String.length s ≤ n → hex.DecodeString s = Some l →
  Forall (λ x, (x < 256)%N) l.
Proof.
  induction n as [n IH] using lt_wf_ind. intros [|a [|c s]] l Hn; simpl.
  - intros [= <-]. constructor.
  - done.
  - destruct (hex.fromHexChar a) as [x|] eqn:Hx; [|done].
    destruct (hex.fromHexChar c) as [y|] eqn:Hy; [|done].
    destruct (hex.DecodeString s) as [l'|] eqn:Hs; [|done].
    intros [= <-]. simpl in Hn. constructor.
    + apply fromHexChar_lt in Hx, Hy. lia.
    + apply (IH (String.length s)) with (s := s); [lia|lia|done].
Qed.

(** X8: a memo of type ["hash"] is taken exactly when it is 64 hexadecimal
    digits, in either case: it then gives the [MemoHash] of its 32 bytes;
    any other memo ends the handler with [InvalidMemo]. *)
Theorem hash_memo_is_64_hex_digits memo (st : State W) :
  (String.length memo = 64 ∧ allHex memo = true →
     ∃ bytes,
       hex.DecodeString memo = Some bytes
       ∧ length bytes = 32
       ∧ Forall (λ x, (x < 256)%N) bytes
       ∧ memoDispatch "hash" memo st
         = (Continue (Some (b.MemoHash bytes)), st))
  ∧ (¬ (String.length memo = 64 ∧ allHex memo = true) →
       memoDispatch "hash" memo st
       = (Stop (WroteError PaymentInvalidMemo), st)).
Proof.
  split.
  - intros [Hlen Hhex].
    destruct (proj2 (DecodeString_is_Some _ memo (le_n _))) as [bytes Hdec].
    { split; [|done]. rewrite Hlen. by exists 32. }
    pose proof (DecodeString_length _ _ Hdec) as Hbytes.
    exists bytes. split_and!; [done|lia| |].
    + by apply (DecodeString_bytes _ memo bytes (le_n _)).
    + unfold memoDispatch. simpl. rewrite Hdec.
      rewrite bool_decide_eq_false_2 by lia. by rewrite take_ge by lia.
  - intros Hno. unfold memoDispatch. simpl.
    destruct (hex.DecodeString memo) as [bytes|] eqn:Hdec; [|done].
    case_bool_decide as Hlen; [done|]. destruct Hno.
    pose proof (DecodeString_length _ _ Hdec) as Hbytes.
    split; [lia|].
    apply (proj1 (DecodeString_is_Some _ memo (le_n _))). by eexists.
Qed.

(** ** The path *)

(** X11: the path has at most as many legs as the form has fields, and it
    depends on the fields before the first missing index only: two forms
    that agree on the code and issuer fields of the indices below [n] and
    both lack the code field of index [n] give the same path. *)
Theorem path_bounded_and_local :
  (∀ r, length (discoverPath r) ≤ size (PostForm r))
  ∧ (∀ r r' n,
       (∀ j, j < n →
          PostForm r !! fmt.Sprintf_path "asset_code" j
          = PostForm r' !! fmt.Sprintf_path "asset_code" j
          ∧ PostForm r !! fmt.Sprintf_path "asset_issuer" j
            = PostForm r' !! fmt.Sprintf_path "asset_issuer" j) →
       ¬ hasLeg r n → ¬ hasLeg r' n →
       discoverPath r = discoverPath r').
Proof.
  split.
  - intros r. destruct (discoverPath_spec r) as (n & -> & Hall & _).
    rewrite length_fmap, length_seq. by apply (fields_le_size "asset_code").
  - intros r r' n Hsame Hn Hn'.
    destruct (discoverPath_spec r) as (m & -> & Hall & Hstop).
    destruct (discoverPath_spec r') as (m' & -> & Hall' & Hstop').
    assert (m ≤ n) as Hm.
    { destruct (decide (m ≤ n)); [done|]. destruct Hn. apply Hall. lia. }
    assert (m' ≤ n) as Hm'.
    { destruct (decide (m' ≤ n)); [done|]. destruct Hn'. apply Hall'. lia. }
    assert (∀ j, j < n → hasLeg r j ↔ hasLeg r' j) as Hlegs.
    { intros j Hj. unfold hasLeg. by rewrite (proj1 (Hsame j Hj)). }
    assert (m = m') as <-.
    { destruct (Nat.lt_trichotomy m m') as [Hlt|[->|Hlt]]; [|done|].
      - destruct Hstop. apply Hlegs; [lia|]. by apply Hall'.
      - destruct Hstop'. apply Hlegs; [lia|]. by apply Hall. }
    apply list_eq. intros i. rewrite !list_lookup_fmap.
    destruct (seq 0 m !! i) as [j|] eqn:Hi; [|done].
    apply lookup_seq in Hi as [-> Hi].
    change (Some (pathLeg r (0 + i)) = Some (pathLeg r' (0 + i))). f_equal.
    destruct (Hsame (0 + i) ltac:(lia)) as [Hc Hs].
    unfold pathLeg, PostFormValue. by rewrite Hc, Hs.
Qed.

End Whole.

(** * The handler as a whole, on concrete requests *)

Section WholeRuns.

Local Existing Instance Mock.builder.
Local Existing Instance Mock.keys.

Ltac run := vm_compute; reflexivity.

Lemma resolves_GB r :
  PostFormValue r "source" = "GA" → PostFormValue r "destination" = "GB" →
  resolveDestination (keys := Mock.keys) Mock.rhAB r Mock.start
  = (Continue ("GA", "GA", Mock.destGB),
     {| world := (); calls := [CallResolve "GB"] |}).
Proof.
  intros Hsrc Hdest. rewrite resolveDestination_cases. cbv zeta.
  by rewrite Hsrc, Hdest.
Qed.

Lemma source_and_destination_checked_first_witness :
  Payment Mock.rhAB Mock.badSource Mock.start
  = (Stop (WroteError PaymentInvalidSource), Mock.start)
  ∧ Payment Mock.rhUnresolved Mock.nativePayment Mock.start
    = (Stop (WroteError PaymentCannotResolveDestination),
       {| world := (); calls := [CallResolve "GB"] |}).
Proof.
  split.
  - apply (proj1 (source_and_destination_checked_first (keys := Mock.keys)
                    Mock.rhAB) Mock.badSource Mock.start "invalid key").
    run.
  - apply (proj1 (proj2 (source_and_destination_checked_first
                           (keys := Mock.keys) Mock.rhUnresolved)
                    Mock.nativePayment Mock.start "GA" ltac:(run))
             "no such address").
    run.
Defined.

Lemma destination_lookup_only_for_native_payment_witness :
  (chooseOperation Mock.rhAB Mock.nativePayment Mock.destGB Mock.start).2
  = {| world := (); calls := [CallLoadAccount "GB"] |}
  ∧ (chooseOperation Mock.rhAB Mock.issuedPayment Mock.destGB Mock.start).2
    = Mock.start.
Proof.
  split.
  - apply (proj1 (destination_lookup_only_for_native_payment
                    (keys := Mock.keys) Mock.rhAB Mock.nativePayment
                    Mock.destGB Mock.start)).
    split_and!; run.
  - apply (proj1 (proj2 (destination_lookup_only_for_native_payment
                           (keys := Mock.keys) Mock.rhAB Mock.issuedPayment
                           Mock.destGB Mock.start))).
    intros (_ & Hcode & _). by vm_compute in Hcode.
Defined.

Lemma partial_pair_ends_with_MissingParamAsset_witness :
  Payment Mock.rhAB Mock.partialAsset Mock.start
  = (Stop (WroteError PaymentMissingParamAsset),
     {| world := (); calls := [CallResolve "GB"] |}).
Proof.
  apply (partial_pair_ends_with_MissingParamAsset (keys := Mock.keys) Mock.rhAB
           Mock.partialAsset Mock.start "GA" "GA" Mock.destGB).
  - apply resolves_GB; run.
  - left. split; [run|]. right. split; [by vm_compute|run].
Defined.

Lemma unparsable_issuer_ends_with_InvalidIssuer_witness :
  Payment Mock.rhAB Mock.badIssuer Mock.start
  = (Stop (WroteError PaymentInvalidIssuer),
     {| world := (); calls := [CallResolve "GB"] |}).
Proof.
  apply (proj1 (unparsable_issuer_ends_with_InvalidIssuer (keys := Mock.keys)
                  Mock.rhAB)
           Mock.badIssuer Mock.start "GA" "GA" Mock.destGB _ "invalid key").
  - apply resolves_GB; run.
  - run.
  - by vm_compute.
  - by vm_compute.
  - run.
Defined.

Lemma operation_builder_error_ends_with_ServerError_witness :
  Payment (build := Mock.rejecting "cannot parse amount") Mock.rhAB
    Mock.nativePayment Mock.start
  = (Stop (WroteError ServerError),
     {| world := (); calls := [CallResolve "GB"; CallLoadAccount "GB"] |}).
Proof.
  apply (operation_builder_error_ends_with_ServerError
           (build := Mock.rejecting "cannot parse amount") (keys := Mock.keys)
           Mock.rhAB Mock.nativePayment Mock.start "GA" "GA" Mock.destGB
           {| world := (); calls := [CallResolve "GB"] |}
           (b.PaymentBuilder [b.Destination "GB"; b.NativeAmount "10"]
              (Some "cannot parse amount"))
           (Some ServerError) _ "cannot parse amount").
  - apply resolves_GB; run.
  - left. split; run.
  - reflexivity.
Defined.

Lemma memo_fields_given_together_witness :
  Payment Mock.rhMemo Mock.memoTypeOnly Mock.start
  = (Stop (WroteError PaymentMissingParamMemo),
     {| world := (); calls := [CallResolve "GB"; CallLoadAccount "GB"] |}).
Proof.
  apply (memo_fields_given_together (keys := Mock.keys) Mock.rhMemo
           Mock.memoTypeOnly Mock.start "GA" "GA"
           {| AccountId := "GB"; MemoType := Some "id"; Memo := Some "42" |}
           {| world := (); calls := [CallResolve "GB"] |}
           (Some (b.PaymentBuilder [b.Destination "GB"; b.NativeAmount "10"] None))).
  - run.
  - run.
  - right. split; [by vm_compute|run].
Defined.

Lemma resolver_memo_excludes_request_memo_witness :
  Payment (build := Mock.signing) Mock.rhMemo (Mock.withMemo "text" "hello")
    Mock.start
  = (Stop (WroteError PaymentCannotUseMemo),
     {| world := (); calls := [CallResolve "GB"; CallLoadAccount "GB"] |})
  ∧ Payment (build := Mock.signing) Mock.rhMemo Mock.nativePayment Mock.start
    = (Continue "submitted",
       {| world := ();
          calls := [CallResolve "GB"; CallLoadAccount "GB"; CallLoadAccount "GA";
                    CallSubmitTransaction "memo id 42"] |}).
Proof.
  split.
  - apply (proj1 (resolver_memo_excludes_request_memo (build := Mock.signing)
                    (keys := Mock.keys) Mock.rhMemo
                    (Mock.withMemo "text" "hello") Mock.start "GA" "GA"
                    {| AccountId := "GB"; MemoType := Some "id";
                       Memo := Some "42" |}
                    {| world := (); calls := [CallResolve "GB"] |}
                    (Some (b.PaymentBuilder
                             [b.Destination "GB"; b.NativeAmount "10"] None))
                    _ "text" "hello" "id"
                    ltac:(run) ltac:(run) ltac:(run) eq_refl)).
    done.
  - pose proof (proj1 (proj2 (resolver_memo_excludes_request_memo
                    (build := Mock.signing) (keys := Mock.keys) Mock.rhMemo
                    Mock.nativePayment Mock.start "GA" "GA"
                    {| AccountId := "GB"; MemoType := Some "id";
                       Memo := Some "42" |}
                    {| world := (); calls := [CallResolve "GB"] |}
                    (Some (b.PaymentBuilder
                             [b.Destination "GB"; b.NativeAmount "10"] None))
                    {| world := ();
                       calls := [CallResolve "GB"; CallLoadAccount "GB"] |}
                    "" "" "id"
                    ltac:(run) ltac:(run) ltac:(run) eq_refl))
                  eq_refl "42" eq_refl) as (_ & _ & Hused & _).
    etrans;
      [apply (Hused (Some (b.MemoID 42)) 7%N
                {| world := ();
                   calls := [CallResolve "GB"; CallLoadAccount "GB";
                             CallLoadAccount "GA"] |}
                (b.PaymentBuilder [b.Destination "GB"; b.NativeAmount "10"] None));
         run
      |run].
Defined.

(** C5 as claimed fails for a memo type without a memo: the resolved
    destination carries a memo, the request has the memo type ["text"], and
    the handler ends with [MissingParamMemo], not with [CannotUseMemo]. *)
Lemma request_memo_type_alone_is_MissingParamMemo :
  PostFormValue Mock.memoTypeOnly "memo_type" = "text"
  ∧ (Resolve (AddressResolver Mock.rhMemo)
       (PostFormValue Mock.memoTypeOnly "destination") (world Mock.start)).1
    = Ok {| AccountId := "GB"; MemoType := Some "id"; Memo := Some "42" |}
  ∧ Payment Mock.rhMemo Mock.memoTypeOnly Mock.start
    = (Stop (WroteError PaymentMissingParamMemo),
       {| world := (); calls := [CallResolve "GB"; CallLoadAccount "GB"] |}).
Proof. split_and!; run. Qed.


(** The calls of a payment of an issued asset: no lookup of the destination. *)
Example issued_payment_calls :
  Payment Mock.rhAB Mock.issuedPayment Mock.start
  = (Continue "submitted",
     {| world := ();
        calls := [CallResolve "GB"; CallLoadAccount "GA";
                  CallSubmitTransaction "envelope"] |}).
Proof. run. Qed.

Lemma Payment_response_is_submit_answer_witness :
  ∃ kp w0 account n operation memo txe w,
    let source := PostFormValue Mock.nativePayment "source" in
    let mutators :=
      [b.SourceAccount source;
       b.Sequence ((n + 1) mod 2 ^ 64)%N;
       b.Network (NetworkPassphrase (config Mock.rhAB));
       b.Operation operation] ++ memo in
    keypair.Parse source = Ok kp
    ∧ (PostFormValue Mock.nativePayment "type" = "payment"
       ∨ PostFormValue Mock.nativePayment "type" = "path_payment")
    ∧ LoadAccount (Horizon Mock.rhAB) (keypair.Address kp) w0 = (Ok account, w)
    ∧ isUint64 (SequenceNumber account) n
    ∧ b.Err operation = None
    ∧ (memo = [] ∨ ∃ m, memo = [b.Memo m])
    ∧ b.TransactionErr mutators = None
    ∧ b.SignBase64 mutators source = Ok txe
    ∧ SubmitTransaction (Horizon Mock.rhAB) txe w
      = (Ok "submitted",
         world {| world := ();
                  calls := [CallResolve "GB"; CallLoadAccount "GB";
                            CallLoadAccount "GA";
                            CallSubmitTransaction "envelope"] |})
    ∧ last (calls {| world := ();
                     calls := [CallResolve "GB"; CallLoadAccount "GB";
                               CallLoadAccount "GA";
                               CallSubmitTransaction "envelope"] |})
      = Some (CallSubmitTransaction txe).
Proof.
  apply (Payment_response_is_submit_answer (keys := Mock.keys) Mock.rhAB
           Mock.nativePayment Mock.start). run.
Defined.

Lemma Payment_panics_only_witness :
  PostFormValue Mock.untyped "type" = ""
  ∨ (PostFormValue Mock.untyped "memo_type" = ""
     ∧ ∃ dest,
         (Resolve (AddressResolver Mock.rhAB)
            (PostFormValue Mock.untyped "destination") (world Mock.start)).1
         = Ok dest
         ∧ is_Some (MemoType dest) ∧ Memo dest = None).
Proof.
  apply (Payment_panics_only (keys := Mock.keys) Mock.rhAB Mock.untyped Mock.start
           {| world := (); calls := [CallResolve "GB"; CallLoadAccount "GA"] |}).
  run.
Defined.

Lemma hash_memo_is_64_hex_digits_witness :
  ∃ bytes,
    hex.DecodeString Mock.hash64 = Some bytes
    ∧ length bytes = 32
    ∧ Forall (λ x, (x < 256)%N) bytes
    ∧ memoDispatch "hash" Mock.hash64 Mock.start
      = (Continue (Some (b.MemoHash bytes)), Mock.start).
Proof.
  apply (proj1 (hash_memo_is_64_hex_digits Mock.hash64 Mock.start)).
  split; run.
Defined.

Lemma path_bounded_and_local_witness :
  discoverPath Mock.gappedPath = discoverPath Mock.twoLegs.
Proof.
  apply (proj2 path_bounded_and_local Mock.gappedPath Mock.twoLegs 2).
  - intros j Hj. destruct j as [|[|j]]; [split; run|split; run|lia].
  - vm_compute. by intros [? ?].
  - vm_compute. by intros [? ?].
Defined.

End WholeRuns.
